(** * transmuseTATE: MusicXML to REMI tokens, and the REMI vocabulary

    A shallow embedding of [xml_to_remi.py] and [tokenise_remi.py].

    Numbers.  Offsets and durations are the quarter-length values music21
    hands out (Python floats or Fractions); they are embedded as the
    rationals they denote ([Q]).  The offsets and durations used in the
    concrete evaluations below (0.5, 0.875, 1.0, ...) are dyadic or table
    keys, so what is computed on them is the same in binary floating point.

    Failure.  A Python exception is a value [inl e] of [result]; code that
    prints or writes files runs in the trace monad [M], which records the
    effects performed up to the point where an exception escapes. *)

From Stdlib Require Import ZArith QArith Qabs Qround Lia Lqa Ascii String Sorted.
From stdpp Require Import base option list strings gmap pretty.

Local Open Scope Z_scope.
Local Open Scope string_scope.
Local Open Scope list_scope.

(** ** Exceptions *)

Inductive exn : Type :=
| ZeroDivisionError
| ValueError
| KeyError
| TypeError
| OSError
| ParseError.

Definition result (A : Type) : Type := (exn + A)%type.

#[global] Instance result_ret : MRet result := fun _ a => inr a.
#[global] Instance result_bind : MBind result := fun _ _ f m =>
  match m with
  | inl e => inl e
  | inr a => f a
  end.

Definition raise {A : Type} (e : exn) : result A := inl e.

(** [for x in l: s = body(s, x)] with an exception leaving the loop. *)
Fixpoint for_each {A S : Type} (l : list A) (body : S -> A -> result S) (s : S)
  : result S :=
  match l with
  | [] => mret s
  | x :: l' => s' ← body s x; for_each l' body s'
  end.

(** ** Python arithmetic on quarter lengths *)

(** [a / b]: true division, [ZeroDivisionError] on a zero divisor. *)
Definition py_truediv (a b : Q) : result Q :=
  if Qeq_bool b 0 then raise ZeroDivisionError else mret (a / b)%Q.

(** [int(q)]: truncation toward zero. *)
Definition py_int (q : Q) : Z := Z.quot (Qnum q) (Z.pos (Qden q)).

(** [a < b] on numbers. *)
Definition py_lt (a b : Q) : bool := negb (Qle_bool b a).

(** [min(l, key=key)]: the first element whose key is strictly below the
    key of every earlier element; [ValueError] on an empty sequence. *)
Fixpoint min_from {A : Type} (key : A -> Q) (best : A) (l : list A) : A :=
  match l with
  | [] => best
  | x :: l' => min_from key (if py_lt (key x) (key best) then x else best) l'
  end.

Definition py_min {A : Type} (key : A -> Q) (l : list A) : result A :=
  match l with
  | [] => raise ValueError
  | x :: l' => mret (min_from key x l')
  end.

(** A dict with float keys, in insertion order: [d.keys()] and [d[k]]. *)
Definition dict_keys {V : Type} (d : list (Q * V)) : list Q := map fst d.

Fixpoint dict_get {V : Type} (d : list (Q * V)) (k : Q) : result V :=
  match d with
  | [] => raise KeyError
  | (k', v) :: d' => if Qeq_bool k' k then mret v else dict_get d' k
  end.

(** ** Quantizer *)

Definition DURATION_LABELS : list (Q * string) :=
  [ (4, "Duration_1"); (3, "Duration_d2"); (2, "Duration_1/2");
    (3 # 2, "Duration_d1/4");
    (1, "Duration_1/4"); (2 # 3, "Duration_1/4t"); (3 # 4, "Duration_d1/8");
    (1 # 2, "Duration_1/8");
    (1 # 3, "Duration_1/8t"); (3 # 8, "Duration_d1/16"); (1 # 4, "Duration_1/16");
    (1 # 6, "Duration_1/16t"); (1 # 8, "Duration_1/32"); (1 # 12, "Duration_1/32t") ]%Q.

Definition default_quarter_length : Q := 1.
Definition default_steps_per_quarter : Z := 4.

Definition quantize_position (offset quarter_length : Q) (steps_per_quarter : Z)
  : result Z :=
  step ← py_truediv quarter_length (inject_Z steps_per_quarter);
  q ← py_truediv offset step;
  mret (py_int q).

Definition quantize_duration (duration : Q) : result string :=
  closest ← py_min (fun x => Qabs (x - duration)) (dict_keys DURATION_LABELS);
  dict_get DURATION_LABELS closest.

(** ** Strings and paths *)

Fixpoint mem_char (c : ascii) (chars : string) : bool :=
  match chars with
  | "" => false
  | String c' rest => Ascii.eqb c c' || mem_char c rest
  end.

(** [s.lstrip(chars)]: drop leading characters while they belong to [chars]. *)
Fixpoint lstrip (s chars : string) : string :=
  match s with
  | "" => ""
  | String c s' => if mem_char c chars then lstrip s' chars else s
  end.

(** [s.split(sep)] for a one-character separator. *)
Fixpoint split_on (sep : ascii) (s : string) : list string :=
  match s with
  | "" => [""]
  | String c s' =>
      if Ascii.eqb c sep then "" :: split_on sep s'
      else match split_on sep s' with
           | [] => [String c ""]
           | w :: ws => String c w :: ws
           end
  end.

(** [os.path.basename(p)]: what follows the last slash. *)
Definition basename (p : string) : string := List.last (split_on "/" p) "".

(** A pure POSIX path: whether it starts at the root, and its components. *)
Record Path : Type := mkPath { anchored : bool; parts : list string }.

Definition starts_with_slash (s : string) : bool :=
  match s with
  | String c _ => Ascii.eqb c "/"
  | "" => false
  end.

Definition proper_component (p : string) : bool :=
  negb (String.eqb p "" || String.eqb p ".").

(** [Path(s)]: empty and [.] components are dropped, [..] is kept. *)
Definition path_of_string (s : string) : Path :=
  mkPath (starts_with_slash s) (List.filter proper_component (split_on "/" s)).

(** [p / s] *)
Definition joinpath (p : Path) (s : string) : Path :=
  let q := path_of_string s in
  if anchored q then q else mkPath (anchored p) (parts p ++ parts q).

Infix "//" := joinpath (at level 40, left associativity).

(** [str(p)], also [p.as_posix()] *)
Definition path_str (p : Path) : string :=
  if anchored p then "/" +:+ String.concat "/" (parts p)
  else match parts p with
       | [] => "."
       | _ => String.concat "/" (parts p)
       end.

Fixpoint strip_prefix (pre l : list string) : option (list string) :=
  match pre, l with
  | [], _ => Some l
  | a :: pre', b :: l' => if String.eqb a b then strip_prefix pre' l' else None
  | _ :: _, [] => None
  end.

(** [p.relative_to(root)] *)
Definition relative_to (p root : Path) : result Path :=
  if Bool.eqb (anchored p) (anchored root) then
    match strip_prefix (parts root) (parts p) with
    | Some rest => mret (mkPath false rest)
    | None => raise ValueError
    end
  else raise ValueError.

(** [p.name] and [p.stem] *)
Definition path_name (p : Path) : string := List.last (parts p) "".

Definition stem (p : Path) : string :=
  let name := path_name p in
  let segs := split_on "." name in
  let front := String.concat "." (removelast segs) in
  if negb (String.eqb front "") && negb (String.eqb (List.last segs "") "")
     && (2 <=? length segs)%nat
  then front else name.

Definition PROJECT_ROOT : Path :=
  path_of_string "/mnt/c/Users/james/projects/transmusetate/project_root".
Definition MXL_DIR : Path := PROJECT_ROOT // "mxl".
Definition METADATA_DIR : Path := PROJECT_ROOT // "metadata".
Definition RESULTS_DIR : Path := PROJECT_ROOT // "results".
Definition PDMX_CSV : Path := PROJECT_ROOT // "PDMX.csv".

(** ** Scores *)

(** What [measure.notesAndRests] yields: notes, rests, and the other
    general notes of music21 (chords, unpitched events, ...), of which the
    encoder only reads the offset. *)
Inductive element : Type :=
| Note (offset : Q) (midi : Z) (quarterLength : Q) (articulations : list string)
| Rest (offset : Q) (quarterLength : Q)
| OtherGeneralNote (offset : Q).

Definition el_offset (el : element) : Q :=
  match el with
  | Note o _ _ _ | Rest o _ | OtherGeneralNote o => o
  end.

Definition measure : Type := list element.
Definition part : Type := list measure.
Definition score : Type := list part.

(** ** Event encoder *)

(** The body of [for el in measure.notesAndRests]; [tokens] is the list
    being appended to.  The second positional argument of
    [quantize_position] is [quarter_length]. *)
Definition encode_element (steps_per_quarter : Z) (tokens : list string)
    (el : element) : result (list string) :=
  pos ← quantize_position (el_offset el) (inject_Z steps_per_quarter)
          default_steps_per_quarter;
  let tokens := tokens ++ ["Position_" +:+ pretty pos] in
  match el with
  | Note _ midi quarterLength articulations =>
      let tokens := tokens ++ ["Pitch_" +:+ pretty midi] in
      d ← quantize_duration quarterLength;
      let tokens := tokens ++ [d] in
      for_each articulations
        (fun tokens art => mret (tokens ++ ["Articulation_" +:+ art])) tokens
  | Rest _ quarterLength =>
      let tokens := tokens ++ ["Rest"] in
      d ← quantize_duration quarterLength;
      mret (tokens ++ [d])
  | OtherGeneralNote _ => mret tokens
  end.

Definition encode_measure (steps_per_quarter : Z) (tokens : list string)
    (m : measure) : result (list string) :=
  for_each m (encode_element steps_per_quarter) (tokens ++ ["Bar"]).

Definition encode_part (steps_per_quarter : Z) (tokens : list string)
    (p : part) : result (list string) :=
  for_each p (encode_measure steps_per_quarter) tokens.

(** The loop [for part in score.parts], started on [tokens = []]. *)
Definition encode_score (steps_per_quarter : Z) (s : score)
  : result (list string) :=
  for_each s (encode_part steps_per_quarter) [].

(** ** Metadata records *)

#[local] Unset Elimination Schemes.
Inductive jvalue : Type :=
| JNull
| JBool (b : bool)
| JNum (q : Q)
| JStr (s : string)
| JArray (l : list jvalue)
| JObject (l : list (string * jvalue)).
#[local] Set Elimination Schemes.

(** What [json.load] returns: a dict for a JSON object, something else
    (list, str, number, None) for any other document. *)
Inductive py_object : Type :=
| PyDict (d : gmap string jvalue)
| PyNotDict (v : jvalue).

(** [o[k] = v]: only a dict takes a string key. *)
Definition setitem (o : py_object) (k : string) (v : jvalue)
  : result (gmap string jvalue) :=
  match o with
  | PyDict d => mret (<[k := v]> d)
  | PyNotDict _ => raise TypeError
  end.

(** ** Effects *)

Inductive message : Type :=
| MsgProcessing (rel_path : string)
| MsgNoMetadataEntry (mxl_path_relative : string)
| MsgFailedToLoad (json_path : Path) (e : exn)
| MsgErrorProcessing (file : Path) (e : exn)
| MsgMetadataWritten (metadata_csv_path : Path).

Inductive content : Type :=
| TokenText (text : string)
| JsonText (metadata : gmap string jvalue).

Inductive event : Type :=
| Print (m : message)
| MakeDirs (dir : Path)
| WriteFile (out_path : Path) (c : content)
| AppendCsv (csv_path : Path) (row : gmap string jvalue) (header : bool).

(** An output artifact is a file written or a row appended. *)
Definition is_artifact (e : event) : bool :=
  match e with
  | WriteFile _ _ | AppendCsv _ _ _ => true
  | Print _ | MakeDirs _ => false
  end.

(** A computation extends the history of effects and returns or raises. *)
Definition M (A : Type) : Type := list event -> list event * result A.

#[global] Instance M_ret : MRet M := fun _ a h => (h, inr a).
#[global] Instance M_bind : MBind M := fun _ _ f m h =>
  match m h with
  | (h', inl e) => (h', inl e)
  | (h', inr a) => f a h'
  end.

Definition lift {A : Type} (r : result A) : M A := fun h => (h, r).

Definition print (m : message) : M unit := fun h => (h ++ [Print m], inr tt).

(** [try: body except Exception as e: handler(e)] *)
Definition try_except {A : Type} (body : M A) (handler : exn -> M A) : M A :=
  fun h =>
    match body h with
    | (h', inl e) => handler e h'
    | (h', inr a) => (h', inr a)
    end.

Fixpoint for_each_M {A S : Type} (l : list A) (body : S -> A -> M S) (s : S)
  : M S :=
  match l with
  | [] => mret s
  | x :: l' => s' ← body s x; for_each_M l' body s'
  end.

Section Pipeline.

(** The collaborators: the score parser, the PDMX index, the JSON
    reader, the operating system (which accepts or refuses a directory
    creation or a write, given everything done so far) and the directory
    walk. *)
Variable parse : Path -> result score.
Variable PDMX_DICT : gmap string string.
Variable read_json : Path -> result py_object.
Variable os_ok : list event -> event -> bool.
Variable rglob_mxl : Path -> list Path.

Definition perform (e : event) : M unit := fun h =>
  if os_ok h e then (h ++ [e], inr tt) else (h, inl OSError).

(** *** Metadata merger *)

Definition metadata_json_path (index_value : string) : Path :=
  let json_rel_path := lstrip index_value "./" in
  PROJECT_ROOT // json_rel_path.

Definition load_external_metadata (mxl_path_relative : string) : M py_object :=
  match PDMX_DICT !! mxl_path_relative with
  | None =>
      _ ← print (MsgNoMetadataEntry mxl_path_relative);
      mret (PyDict ∅)
  | Some index_value =>
      let json_path := metadata_json_path index_value in
      try_except (lift (read_json json_path))
        (fun e => _ ← print (MsgFailedToLoad json_path e); mret (PyDict ∅))
  end.

Definition convert_xml_to_remi_musicbert (file_path : Path)
    (rel_mxl_path : string) (steps_per_quarter : Z)
  : M (list string * gmap string jvalue) :=
  score ← lift (parse file_path);
  metadata ← load_external_metadata rel_mxl_path;
  metadata ← lift (setitem metadata "filename"
                     (JStr (basename (path_str file_path))));
  tokens ← lift (encode_score steps_per_quarter score);
  mret (tokens, metadata).

(** *** Batch driver *)

Definition save_tokens (tokens : list string) (file_path output_dir : Path)
  : M unit :=
  _ ← perform (MakeDirs output_dir);
  let base := stem file_path in
  let out_path := output_dir // (base +:+ ".remi.txt") in
  perform (WriteFile out_path (TokenText (String.concat " " tokens))).

Definition save_metadata_json (metadata : gmap string jvalue)
    (file_path output_dir : Path) : M unit :=
  _ ← perform (MakeDirs output_dir);
  let base := stem file_path in
  let out_path := output_dir // (base +:+ ".metadata.json") in
  perform (WriteFile out_path (JsonText metadata)).

(** The [try] block of the loop body; it returns the new [first_row]. *)
Definition process_try (output_dir metadata_csv_path : Path)
    (first_row : bool) (file : Path) (rel_path : string) : M bool :=
  '(tokens, metadata) ←
    convert_xml_to_remi_musicbert file rel_path default_steps_per_quarter;
  _ ← save_tokens tokens file output_dir;
  _ ← save_metadata_json metadata file output_dir;
  _ ← perform (AppendCsv metadata_csv_path metadata first_row);
  mret false.

(** The loop body of [batch_process]. *)
Definition process_file (output_dir metadata_csv_path : Path)
    (first_row : bool) (file : Path) : M bool :=
  rel ← lift (relative_to file PROJECT_ROOT);
  let rel_path := "./" +:+ path_str rel in
  _ ← print (MsgProcessing rel_path);
  try_except (process_try output_dir metadata_csv_path first_row file rel_path)
    (fun e => _ ← print (MsgErrorProcessing file e); mret first_row).

Definition batch_process (input_dir output_dir : Path) : M unit :=
  _ ← perform (MakeDirs output_dir);
  let metadata_csv_path := output_dir // "all_metadata.csv" in
  _ ← for_each_M (rglob_mxl input_dir)
        (process_file output_dir metadata_csv_path) true;
  print (MsgMetadataWritten metadata_csv_path).

End Pipeline.

(** ** Vocabulary builder *)

Module Vocabulary.

(** The configuration [tokenise_remi.py] hands to the trainer. *)
Definition vocab_size : nat := 512.
Definition special_tokens : list string :=
  ["[PAD]"; "[CLS]"; "[SEP]"; "[MASK]"; "[UNK]"].
Definition unk_token : string := "[UNK]".

(** space, tab, line feed, carriage return *)
Definition is_space (c : ascii) : bool :=
  Ascii.eqb c " " || Ascii.eqb c "009" || Ascii.eqb c "010" || Ascii.eqb c "013".

(** Modelled from the spec: the whitespace splitting rule of the
    vocabulary builder (the pre-tokenizer is the tokenizers library's,
    outside this repository); empty pieces are dropped. *)
Fixpoint split_space (s : string) : list string :=
  match s with
  | "" => [""]
  | String c s' =>
      if is_space c then "" :: split_space s'
      else match split_space s' with
           | [] => [String c ""]
           | w :: ws => String c w :: ws
           end
  end.

Definition words (line : string) : list string :=
  List.filter (fun w => negb (String.eqb w "")) (split_space line).

Definition frequency (corpus : list string) (w : string) : nat :=
  count_occ string_dec corpus w.

(** The distinct tokens of the corpus in first-seen order. *)
Fixpoint first_seen (seen corpus : list string) : list string :=
  match corpus with
  | [] => []
  | w :: corpus' =>
      if existsb (String.eqb w) seen then first_seen seen corpus'
      else w :: first_seen (w :: seen) corpus'
  end.

(** Stable insertion by descending frequency: [w], seen before every
    token of [l], goes in front of the first token that is not more
    frequent. *)
Fixpoint insert_ranked (freq : string -> nat) (w : string) (l : list string)
  : list string :=
  match l with
  | [] => [w]
  | x :: l' =>
      if (freq x <=? freq w)%nat then w :: l
      else x :: insert_ranked freq w l'
  end.

Definition rank (freq : string -> nat) (l : list string) : list string :=
  foldr (insert_ranked freq) [] l.

(** Modelled from the spec: the word-level trainer (the tokenizers
    library's [WordLevelTrainer], outside this repository): the special
    tokens first, in their declared order, then the corpus tokens by
    descending frequency with ties in first-seen order, the whole cut to
    the size budget; a token's id is its position. *)
Definition train_with (budget : nat) (specials : list string)
    (lines : list string) : list string :=
  let corpus := flat_map words lines in
  take budget (specials ++ rank (frequency corpus) (first_seen [] corpus)).

Definition train (lines : list string) : list string :=
  train_with vocab_size special_tokens lines.

Definition token_to_id (vocab : list string) (w : string) : option nat :=
  fst <$> list_find (eq w) vocab.

(** Modelled from the spec: at use time a token outside the vocabulary
    takes the id of the unknown token. *)
Definition encode (vocab : list string) (w : string) : option nat :=
  match token_to_id vocab w with
  | Some i => Some i
  | None => token_to_id vocab unk_token
  end.

End Vocabulary.

(** ** The specification's wording, for comparison with the code *)

(** The duration labels enumerated in the token grammar. *)
Definition grammar_duration_labels : list string :=
  map (String.append "Duration_")
    ["1"; "d2"; "1/2"; "d1/4"; "1/4"; "1/4t"; "d1/8"; "1/8"; "1/8t";
     "d1/16"; "1/16"; "1/16t"; "1/32"; "1/32t"].

Definition is_duration_token (t : string) : bool := String.prefix "Duration_" t.

(** Counting the measures and events of a score. *)
Definition measures_of (s : score) : list measure := concat s.
Definition events_of (s : score) : list element := concat (measures_of s).

Definition is_note (el : element) : bool :=
  match el with Note _ _ _ _ => true | _ => false end.
Definition is_rest (el : element) : bool :=
  match el with Rest _ _ => true | _ => false end.
Definition articulation_count (el : element) : nat :=
  match el with Note _ _ _ arts => length arts | _ => 0%nat end.

Definition count_where (p : element -> bool) (s : score) : nat :=
  length (List.filter p (events_of s)).
Definition articulations_in (s : score) : nat :=
  sum_list (map articulation_count (events_of s)).

(** The length the specification announces: one per measure, two per
    event, one per note for its duration token, one per articulation. *)
Definition claimed_length (s : score) : nat :=
  (length (measures_of s) + 2 * length (events_of s)
   + count_where is_note s + articulations_in s)%nat.

(** The length the encoder produces: one per measure, one per event for
    its position, two more per note or rest, one per articulation. *)
Definition token_count (s : score) : nat :=
  (length (measures_of s) + length (events_of s)
   + 2 * (count_where is_note s + count_where is_rest s)
   + articulations_in s)%nat.

(** Tokens appended for one element, one measure, one part. *)
Definition element_tokens (el : element) : nat :=
  match el with
  | Note _ _ _ arts => (3 + length arts)%nat
  | Rest _ _ => 3%nat
  | OtherGeneralNote _ => 1%nat
  end.
Definition measure_tokens (m : measure) : nat :=
  (1 + sum_list (map element_tokens m))%nat.
Definition part_tokens (p : part) : nat := sum_list (map measure_tokens p).

(** A duration token outside the grammar's labels would break this. *)
Definition duration_tokens_in_grammar (tokens : list string) : Prop :=
  Forall (fun t => is_duration_token t = true -> t ∈ grammar_duration_labels) tokens.

(** ** Sample inputs *)

(** A single eighth note on the off-beat of the first quarter. *)
Definition offbeat_score : score := [[[Note (1 # 2) 60 (1 # 2) []]]].
(** A single quarter rest. *)
Definition rest_score : score := [[[Rest 0 1]]].
(** A chord between a note and a rest, then an empty measure. *)
Definition mixed_score : score :=
  [[[Note 0 60 1 ["Staccato"; "Accent"]; OtherGeneralNote 1; Rest 2 (7 # 8)]; []]].

(** Three files under the score directory; the parser refuses the second. *)
Definition sample_file (name : string) : Path := MXL_DIR // name.

Definition sample_parse (file : Path) : result score :=
  if String.eqb (path_name file) "broken.mxl" then raise ParseError
  else mret rest_score.

Definition sample_index : gmap string string :=
  {[ "./mxl/a.mxl" := "./metadata/a.json" ]}.

Definition sample_read_json (json_path : Path) : result py_object :=
  mret (PyDict {[ "filename" := JStr "stale"; "title" := JStr "Air" ]}).

Definition sample_rglob (input_dir : Path) : list Path :=
  [sample_file "a.mxl"; sample_file "broken.mxl"; sample_file "c.mxl"].

Definition os_accepts_all (h : list event) (e : event) : bool := true.

(** An operating system on which metadata files cannot be written. *)
Definition os_refuses_metadata (h : list event) (e : event) : bool :=
  match e with
  | WriteFile _ (JsonText _) => false
  | _ => true
  end.

(** ** Notions used in the statements about the batch driver *)

Definition no_artifact (evs : list event) : Prop :=
  Forall (fun e => is_artifact e = false) evs.

(** The relative path the batch driver computes for a file. *)
Definition rel_path_of (file : Path) : string :=
  match relative_to file PROJECT_ROOT with
  | inr rel => "./" +:+ path_str rel
  | inl _ => ""
  end.

Definition under_project_root (file : Path) : Prop :=
  exists rel, relative_to file PROJECT_ROOT = inr rel.

Definition tokens_path (output_dir file : Path) : Path :=
  output_dir // (stem file +:+ ".remi.txt").
Definition metadata_path (output_dir file : Path) : Path :=
  output_dir // (stem file +:+ ".metadata.json").

(** The five operations that persist one file's results. *)
Definition persist_events (output_dir metadata_csv_path file : Path)
    (tokens : list string) (metadata : gmap string jvalue) (first_row : bool)
  : list event :=
  [ MakeDirs output_dir;
    WriteFile (tokens_path output_dir file) (TokenText (String.concat " " tokens));
    MakeDirs output_dir;
    WriteFile (metadata_path output_dir file) (JsonText metadata);
    AppendCsv metadata_csv_path metadata first_row ].

(** The operating system accepts each of these operations, whenever asked. *)
Definition os_accepts (os_ok : list event -> event -> bool) (evs : list event) : Prop :=
  forall h ev, ev ∈ evs -> os_ok h ev = true.

(** Every character of [p] belongs to [chars]. *)
Fixpoint all_in (p chars : string) : bool :=
  match p with
  | "" => true
  | String c p' => mem_char c chars && all_in p' chars
  end.

(** The operations of [ops] that are performed, in order, from history
    [h], until the operating system refuses one. *)
Fixpoint accepted (os_ok : list event -> event -> bool) (h : list event)
    (ops : list event) : list event :=
  match ops with
  | [] => []
  | ev :: ops' =>
      if os_ok h ev then ev :: accepted os_ok (h ++ [ev]) ops' else []
  end.

Section BatchOutcome.

Variable parse : Path -> result score.
Variable PDMX_DICT : gmap string string.
Variable read_json : Path -> result py_object.
Variable os_ok : list event -> event -> bool.
Variable rglob_mxl : Path -> list Path.

(** What a run of [batch_process], started on history [h], does with
    [file], found after [files1] and before [files2]: the loop reaches
    the file on some history [h1]; the conversion of the file logs [log]
    and ends in [rc]; the loop body adds [evs] after its "Processing"
    line and returns; the loop then goes through [files2], adding
    [rest], and [batch_process] returns after its closing line.  When
    the conversion raised, [evs] is the log and the error line, with no
    output artifact.  When it returned, the five persisting operations
    [ops] are attempted in order and [done] are those performed before
    the first refusal: either all five are performed, and [evs] is the
    log and these five; or one is refused, and [evs] is the log, the
    operations already performed, which stay, and the line reporting
    the [OSError], the header flag being left as it was. *)
Definition file_outcome (input_dir output_dir : Path)
    (files1 : list Path) (file : Path) (files2 : list Path) (h : list event)
  : Prop :=
  let csv := output_dir // "all_metadata.csv" in
  let body := process_file parse PDMX_DICT read_json os_ok output_dir csv in
  exists h1 fr1 log rc evs fr2 rest fr3,
    let h0 := h1 ++ [Print (MsgProcessing (rel_path_of file))] in
    for_each_M files1 body true (h ++ [MakeDirs output_dir]) = (h1, inr fr1)
    /\ convert_xml_to_remi_musicbert parse PDMX_DICT read_json file
         (rel_path_of file) default_steps_per_quarter h0 = (h0 ++ log, rc)
    /\ body fr1 file h1 = (h0 ++ evs, inr fr2)
    /\ for_each_M files2 body fr2 (h0 ++ evs) = (h0 ++ evs ++ rest, inr fr3)
    /\ batch_process parse PDMX_DICT read_json os_ok rglob_mxl input_dir output_dir h
       = (h0 ++ evs ++ rest ++ [Print (MsgMetadataWritten csv)], inr tt)
    /\ (forall e, rc = inl e ->
          evs = log ++ [Print (MsgErrorProcessing file e)]
          /\ no_artifact evs /\ fr2 = fr1)
    /\ (forall tokens metadata, rc = inr (tokens, metadata) ->
          let ops := persist_events output_dir csv file tokens metadata fr1 in
          let done := accepted os_ok (h0 ++ log) ops in
          (os_accepts os_ok ops -> evs = log ++ ops /\ fr2 = false)
          /\ (done = ops /\ evs = log ++ ops /\ fr2 = false
              \/ done <> ops
                 /\ evs = log ++ done ++ [Print (MsgErrorProcessing file OSError)]
                 /\ fr2 = fr1)
          /\ done `prefix_of` ops
          /\ (os_ok (h0 ++ log) (MakeDirs output_dir) = true ->
              os_ok ((h0 ++ log) ++ [MakeDirs output_dir])
                (WriteFile (tokens_path output_dir file)
                   (TokenText (String.concat " " tokens))) = true ->
              WriteFile (tokens_path output_dir file)
                (TokenText (String.concat " " tokens)) ∈ evs)).

End BatchOutcome.

(** What the conversion of [a.mxl] returns in the sample environment. *)
Definition sample_tokens : list string :=
  ["Bar"; "Position_0"; "Rest"; "Duration_1/4"].
Definition sample_metadata : gmap string jvalue :=
  {[ "filename" := JStr "a.mxl"; "title" := JStr "Air" ]}.

(** A small corpus: [Bar] and [b] three times, [a] twice, [c] once. *)
Definition sample_lines : list string := ["Bar c a  b"; "a b b Bar Bar"].

(** What [mixed_score] is encoded to with the default setting. *)
Definition mixed_tokens : list string :=
  ["Bar"; "Position_0"; "Pitch_60"; "Duration_1/4"; "Articulation_Staccato";
   "Articulation_Accent"; "Position_1"; "Position_2"; "Rest"; "Duration_1/4"; "Bar"].

(** The token grammar: the six forms a token of the output can take. *)
Inductive remi_token : string -> Prop :=
| tok_bar : remi_token "Bar"
| tok_position (n : Z) : remi_token ("Position_" +:+ pretty n)
| tok_pitch (m : Z) : remi_token ("Pitch_" +:+ pretty m)
| tok_duration (d : string) : d ∈ grammar_duration_labels -> remi_token d
| tok_rest : remi_token "Rest"
| tok_articulation (c : string) : remi_token ("Articulation_" +:+ c).

(** How many [Bar] tokens a token sequence holds. *)
Definition bars (tokens : list string) : nat := count_occ string_dec tokens "Bar".

(** The articulation class names a score carries, in order. *)
Definition event_articulations (el : element) : list string :=
  match el with
  | Note _ _ _ arts => arts
  | _ => []
  end.
Definition score_articulations (s : score) : list string :=
  flat_map event_articulations (events_of s).

(** A string without a space. *)
Definition space_free (t : string) : Prop := mem_char " " t = false.

(** The header flags of the rows appended to the aggregate table, and
    the relative paths announced by the "Processing" lines, in order. *)
Definition csv_headers (evs : list event) : list bool :=
  flat_map (fun e => match e with AppendCsv _ _ header => [header] | _ => [] end) evs.
Definition processing_lines (evs : list event) : list string :=
  flat_map (fun e => match e with Print (MsgProcessing rel) => [rel] | _ => [] end) evs.

(** A metadata document that is a JSON array, not an object. *)
Definition array_read_json (json_path : Path) : result py_object :=
  mret (PyNotDict (JArray [JStr "Air"])).

(** A reader that finds no file. *)
Definition failing_read_json (json_path : Path) : result py_object :=
  raise OSError.

(** A directory walk that strays outside the project root. *)
Definition stray_rglob (input_dir : Path) : list Path :=
  [sample_file "a.mxl"; path_of_string "/tmp/x.mxl"; sample_file "c.mxl"].

(** The rationals that are finite binary64 floats: a significand of at
    most 53 bits scaled by a power of two in the exponent range. *)
Definition binary64 (q : Q) : Prop :=
  exists m e : Z,
    Z.abs m < 2 ^ 53 /\ -1074 <= e <= 971 /\ (q == inject_Z m * 2 ^ e)%Q.

(** The distinct tokens of a corpus, those of them no rarer than [w],
    and those of them more frequent than [w]. *)
Definition distinct_tokens (corpus : list string) : list string :=
  remove_dups corpus.
Definition no_rarer_than (corpus : list string) (w : string) : list string :=
  List.filter
    (fun t => (Vocabulary.frequency corpus w <=? Vocabulary.frequency corpus t)%nat)
    (distinct_tokens corpus).
Definition more_frequent_than (corpus : list string) (w : string) : list string :=
  List.filter
    (fun t => (Vocabulary.frequency corpus w <? Vocabulary.frequency corpus t)%nat)
    (distinct_tokens corpus).

(** A corpus that exhausts the budget: [Rest] once, then 507 other
    words, the numerals 0 to 506, each twice. *)
Definition crowded_line : string :=
  String.concat " " (map (fun n : nat => pretty n) (seq 0 507)).
Definition crowded_lines : list string := ["Rest"; crowded_line; crowded_line].

(** * Properties *)

(** ** Exceptions and loops *)

Lemma result_bind_inr {A B : Type} (m : result A) (f : A -> result B) (b : B) :
  m ≫= f = inr b -> exists a, m = inr a /\ f a = inr b.
Proof.
  destruct m as [e | a]; cbn; [discriminate | eauto].
Qed.

Lemma for_each_app {A S : Type} (body : S -> A -> result S) (l1 l2 : list A) (s : S) :
  for_each (l1 ++ l2) body s = for_each l1 body s ≫= for_each l2 body.
Proof.
  revert s; induction l1 as [| x l1 IH]; intros s; cbn; [reflexivity |].
  destruct (body s x) as [e | s']; cbn; [reflexivity | apply IH].
Qed.

(** ** Arithmetic *)

Lemma py_lt_spec (a b : Q) : py_lt a b = true <-> (a < b)%Q.
Proof.
  unfold py_lt. rewrite negb_true_iff. split.
  - intros H. apply Qnot_le_lt. intros Hle.
    apply Qle_bool_iff in Hle. congruence.
  - intros H. destruct (Qle_bool b a) eqn:E; [| reflexivity].
    apply Qle_bool_iff in E. exfalso. exact (Qlt_not_le _ _ H E).
Qed.

Lemma py_int_nonneg (q : Q) : (0 <= q)%Q -> py_int q = Qfloor q.
Proof.
  destruct q as [n d]. unfold Qle, py_int, Qfloor; cbn. intros H.
  apply Z.quot_div_nonneg; lia.
Qed.

Lemma py_int_nonpos (q : Q) : (q <= 0)%Q -> py_int q = Qceiling q.
Proof.
  destruct q as [n d]. unfold Qle, py_int, Qceiling, Qfloor; cbn. intros H.
  replace n with (- - n) at 1 by lia.
  rewrite Z.quot_opp_l by lia. f_equal.
  apply Z.quot_div_nonneg; lia.
Qed.

Lemma py_truediv_ok (a b : Q) : ~ (b == 0)%Q -> py_truediv a b = inr (a / b)%Q.
Proof.
  intros H. unfold py_truediv.
  destruct (Qeq_bool b 0) eqn:E; [| reflexivity].
  apply Qeq_bool_iff in E. contradiction.
Qed.

Lemma inject_Z_nonzero (z : Z) : z <> 0 -> ~ (inject_Z z == 0)%Q.
Proof. unfold Qeq; cbn. lia. Qed.

Lemma Qdiv_nonzero (a b : Q) : ~ (a == 0)%Q -> ~ (b == 0)%Q -> ~ (a / b == 0)%Q.
Proof.
  intros Ha Hb H. apply Ha.
  rewrite <- (Qmult_div_r a b) by exact Hb. rewrite H. ring.
Qed.

(** [quantize_position] returns whenever the step is not zero. *)
Lemma quantize_position_ok (offset quarter_length : Q) (steps_per_quarter : Z) :
  ~ (quarter_length == 0)%Q -> steps_per_quarter <> 0 ->
  quantize_position offset quarter_length steps_per_quarter
  = inr (py_int (offset / (quarter_length / inject_Z steps_per_quarter))).
Proof.
  intros Hq Hs. unfold quantize_position.
  rewrite py_truediv_ok by (apply inject_Z_nonzero; exact Hs). cbn.
  rewrite py_truediv_ok; [reflexivity |].
  apply Qdiv_nonzero; [exact Hq | apply inject_Z_nonzero; exact Hs].
Qed.

(** On a non-negative offset and a positive step the index is the floor
    of [offset / step]. *)
Lemma quantize_position_floor (offset quarter_length : Q) (steps_per_quarter : Z) :
  (0 <= offset)%Q -> (0 < quarter_length)%Q -> 0 < steps_per_quarter ->
  quantize_position offset quarter_length steps_per_quarter
  = inr (Qfloor (offset / (quarter_length / inject_Z steps_per_quarter))).
Proof.
  intros Ho Hq Hs.
  rewrite quantize_position_ok; [| intros E; rewrite E in Hq; discriminate | lia].
  f_equal. apply py_int_nonneg.
  assert (Hstep : (0 < quarter_length / inject_Z steps_per_quarter)%Q).
  { apply Qlt_shift_div_l; [unfold Qlt; cbn; lia | ring_simplify; exact Hq]. }
  apply Qle_shift_div_l; [exact Hstep | ring_simplify; exact Ho].
Qed.

Lemma quantize_position_default (offset : Q) :
  (0 <= offset)%Q ->
  quantize_position offset default_quarter_length default_steps_per_quarter
  = inr (Qfloor (4 * offset)).
Proof.
  intros Ho. rewrite quantize_position_floor; [| exact Ho | reflexivity | reflexivity].
  f_equal. apply Qfloor_comp. unfold default_quarter_length, default_steps_per_quarter.
  field.
Qed.

(** ** Nearest duration *)

Lemma min_from_spec {A : Type} (key : A -> Q) (l : list A) (best : A) :
  min_from key best l ∈ best :: l
  /\ forall x, x ∈ best :: l -> (key (min_from key best l) <= key x)%Q.
Proof.
  revert best; induction l as [| y l IH]; intros best; cbn.
  - split; [left |]. intros x Hx. apply list_elem_of_singleton in Hx as ->. apply Qle_refl.
  - destruct (IH (if py_lt (key y) (key best) then y else best)) as [Hin Hmin].
    split.
    + apply elem_of_cons in Hin as [-> | Hin].
      * destruct (py_lt (key y) (key best)); [right; left | left].
      * right; right; exact Hin.
    + intros x Hx.
      assert (Hb : (key (min_from key (if py_lt (key y) (key best) then y else best) l)
                    <= key (if py_lt (key y) (key best) then y else best))%Q)
        by (apply Hmin; left).
      destruct (py_lt (key y) (key best)) eqn:E.
      * apply py_lt_spec in E.
        apply elem_of_cons in Hx as [-> | Hx].
        -- eapply Qle_trans; [exact Hb | apply Qlt_le_weak; exact E].
        -- apply Hmin. exact Hx.
      * assert (Hge : (key best <= key y)%Q).
        { apply Qnot_lt_le. intros Hlt. apply py_lt_spec in Hlt. congruence. }
        apply elem_of_cons in Hx as [-> | Hx]; [exact Hb |].
        apply elem_of_cons in Hx as [-> | Hx].
        -- eapply Qle_trans; [exact Hb | exact Hge].
        -- apply Hmin. right; exact Hx.
Qed.

Lemma dict_get_key {V : Type} (d : list (Q * V)) (k : Q) :
  k ∈ dict_keys d -> exists v, dict_get d k = inr v /\ v ∈ map snd d.
Proof.
  induction d as [| [k' v'] d IH]; cbn; intros Hk.
  - apply elem_of_nil in Hk as [].
  - destruct (Qeq_bool k' k) eqn:E.
    + exists v'. split; [reflexivity | left].
    + apply elem_of_cons in Hk as [-> | Hk].
      * rewrite (proj2 (Qeq_bool_iff _ _) (Qeq_refl _)) in E. discriminate.
      * destruct (IH Hk) as (v & Hv & Hin). exists v. split; [exact Hv | right; exact Hin].
Qed.

Ltac elem_cases :=
  repeat match goal with
  | H : _ ∈ [] |- _ => apply elem_of_nil in H; destruct H
  | H : (_, _) ∈ _ :: _ |- _ => apply elem_of_cons in H; destruct H as [[= -> ->] | H]
  | H : _ ∈ _ :: _ |- _ => apply elem_of_cons in H; destruct H as [-> | H]
  end.

Ltac elem_solve := solve [repeat first [left | right]].

Ltac decide_by_vm :=
  match goal with
  | |- ?P => refine (@bool_decide_unpack P _ _); vm_compute; exact I
  end.

Lemma DURATION_LABELS_get (k : Q) :
  k ∈ dict_keys DURATION_LABELS ->
  exists label, (k, label) ∈ DURATION_LABELS /\ dict_get DURATION_LABELS k = inr label.
Proof.
  unfold dict_keys, DURATION_LABELS; cbn [map fst]. intros H.
  elem_cases; (eexists; split; [| reflexivity]; elem_solve).
Qed.

Lemma DURATION_LABELS_functional (k1 k2 : Q) (l1 l2 : string) :
  (k1, l1) ∈ DURATION_LABELS -> (k2, l2) ∈ DURATION_LABELS -> (k1 == k2)%Q -> l1 = l2.
Proof.
  unfold DURATION_LABELS. intros H1 H2 E.
  elem_cases; first [reflexivity | discriminate E].
Qed.

Lemma DURATION_LABELS_grammar : map snd DURATION_LABELS = grammar_duration_labels.
Proof. reflexivity. Qed.

(** [quantize_duration] always returns, with the label of a key nearest to
    the duration. *)
Lemma quantize_duration_nearest (duration : Q) :
  exists key label,
    (key, label) ∈ DURATION_LABELS
    /\ quantize_duration duration = inr label
    /\ forall k, k ∈ dict_keys DURATION_LABELS ->
         (Qabs (key - duration) <= Qabs (k - duration))%Q.
Proof.
  unfold quantize_duration.
  change (dict_keys DURATION_LABELS) with (4%Q :: tail (dict_keys DURATION_LABELS)).
  cbn [py_min mret result_ret mbind result_bind].
  destruct (min_from_spec (fun x => Qabs (x - duration))
              (tail (dict_keys DURATION_LABELS)) 4%Q) as [Hin Hmin].
  destruct (DURATION_LABELS_get _ Hin) as (label & Hl & Hget).
  eexists _, label. split; [exact Hl |]. split; [exact Hget |].
  exact Hmin.
Qed.

Lemma quantize_duration_in_grammar (duration : Q) (label : string) :
  quantize_duration duration = inr label -> label ∈ grammar_duration_labels.
Proof.
  intros H. destruct (quantize_duration_nearest duration) as (k & l & Hin & Hq & _).
  rewrite Hq in H. injection H as <-.
  rewrite <- DURATION_LABELS_grammar.
  apply list_elem_of_fmap. exists (k, l). split; [reflexivity | exact Hin].
Qed.

Lemma quantize_duration_exact (duration key : Q) (label : string) :
  (key, label) ∈ DURATION_LABELS -> (duration == key)%Q ->
  quantize_duration duration = inr label.
Proof.
  intros Hin E.
  destruct (quantize_duration_nearest duration) as (k & l & Hkl & Hq & Hmin).
  rewrite Hq. f_equal.
  apply (DURATION_LABELS_functional k key l label Hkl Hin).
  assert (Hkey : key ∈ dict_keys DURATION_LABELS).
  { apply list_elem_of_fmap. exists (key, label). split; [reflexivity | exact Hin]. }
  specialize (Hmin key Hkey).
  assert (Hz : (key - duration == 0)%Q) by (rewrite E; ring).
  rewrite Hz in Hmin. apply Qabs_Qle_condition in Hmin.
  destruct Hmin as [Hlo Hhi]. rewrite E in Hlo, Hhi.
  change (Qabs 0) with 0%Q in Hlo, Hhi.
  apply Qle_antisym; lra.
Qed.

(** ** Event encoder *)

Lemma for_each_append_tokens {A : Type} (f : A -> string) (l : list A) (tokens : list string) :
  for_each l (fun tokens x => mret (tokens ++ [f x])) tokens = inr (tokens ++ map f l).
Proof.
  revert tokens; induction l as [| x l IH]; intros tokens; cbn.
  - rewrite app_nil_r. reflexivity.
  - cbn in IH. rewrite IH, <- app_assoc. reflexivity.
Qed.

(** The index the encoder computes: the offset divided by
    [steps_per_quarter / 4], truncated. *)
Lemma encoder_position (steps_per_quarter : Z) (offset : Q) :
  steps_per_quarter <> 0 ->
  quantize_position offset (inject_Z steps_per_quarter) default_steps_per_quarter
  = inr (py_int (offset / (inject_Z steps_per_quarter / 4))).
Proof.
  intros H. apply quantize_position_ok; [| discriminate].
  apply inject_Z_nonzero. exact H.
Qed.

(** What one element appends. *)
Lemma encode_element_spec (steps_per_quarter : Z) (tokens : list string) (el : element) :
  steps_per_quarter <> 0 ->
  exists pos,
    quantize_position (el_offset el) (inject_Z steps_per_quarter)
      default_steps_per_quarter = inr pos
    /\ match el with
       | Note _ midi quarterLength arts =>
           exists d, quantize_duration quarterLength = inr d
             /\ encode_element steps_per_quarter tokens el
                = inr (tokens ++ ["Position_" +:+ pretty pos; "Pitch_" +:+ pretty midi; d]
                         ++ map (String.append "Articulation_") arts)
       | Rest _ quarterLength =>
           exists d, quantize_duration quarterLength = inr d
             /\ encode_element steps_per_quarter tokens el
                = inr (tokens ++ ["Position_" +:+ pretty pos; "Rest"; d])
       | OtherGeneralNote _ =>
           encode_element steps_per_quarter tokens el
           = inr (tokens ++ ["Position_" +:+ pretty pos])
       end.
Proof.
  intros Hs. eexists. split; [apply encoder_position; exact Hs |].
  unfold encode_element. rewrite (encoder_position _ _ Hs).
  cbn [mbind result_bind mret result_ret].
  destruct el as [o midi ql arts | o ql | o].
  - destruct (quantize_duration_nearest ql) as (k & d & _ & Hd & _).
    exists d. split; [exact Hd |]. rewrite Hd. cbn [mbind result_bind].
    rewrite (for_each_append_tokens (String.append "Articulation_")).
    rewrite <- !app_assoc. reflexivity.
  - destruct (quantize_duration_nearest ql) as (k & d & _ & Hd & _).
    exists d. split; [exact Hd |]. rewrite Hd. cbn [mbind result_bind mret result_ret].
    rewrite <- !app_assoc. reflexivity.
  - reflexivity.
Qed.

Lemma encode_element_length (steps_per_quarter : Z) (tokens : list string) (el : element) :
  steps_per_quarter <> 0 ->
  exists tokens', encode_element steps_per_quarter tokens el = inr tokens'
    /\ length tokens' = (length tokens + element_tokens el)%nat.
Proof.
  intros Hs. destruct (encode_element_spec steps_per_quarter tokens el Hs) as (pos & _ & H).
  destruct el as [o midi ql arts | o ql | o].
  - destruct H as (d & _ & ->). eexists; split; [reflexivity |].
    rewrite !length_app, length_map. cbn. lia.
  - destruct H as (d & _ & ->). eexists; split; [reflexivity |].
    rewrite !length_app. cbn. lia.
  - rewrite H. eexists; split; [reflexivity |]. rewrite !length_app. cbn. lia.
Qed.

(** A loop whose body always returns and adds [cost x] tokens returns and
    adds the sum of the costs. *)
Lemma for_each_length {A : Type} (body : list string -> A -> result (list string))
    (cost : A -> nat) :
  (forall tokens x, exists tokens', body tokens x = inr tokens'
      /\ length tokens' = (length tokens + cost x)%nat) ->
  forall l tokens, exists tokens', for_each l body tokens = inr tokens'
      /\ length tokens' = (length tokens + sum_list (map cost l))%nat.
Proof.
  intros Hbody l; induction l as [| x l IH]; intros tokens; cbn.
  - exists tokens. split; [reflexivity | lia].
  - destruct (Hbody tokens x) as (t1 & -> & H1). cbn.
    destruct (IH t1) as (t2 & -> & H2). exists t2. split; [reflexivity | lia].
Qed.

Lemma encode_measure_length (steps_per_quarter : Z) (tokens : list string) (m : measure) :
  steps_per_quarter <> 0 ->
  exists tokens', encode_measure steps_per_quarter tokens m = inr tokens'
    /\ length tokens' = (length tokens + measure_tokens m)%nat.
Proof.
  intros Hs. unfold encode_measure, measure_tokens.
  destruct (for_each_length (encode_element steps_per_quarter) element_tokens
              (fun t x => encode_element_length steps_per_quarter t x Hs)
              m (tokens ++ ["Bar"])) as (t' & -> & H).
  exists t'. split; [reflexivity |]. rewrite length_app in H. cbn in H. lia.
Qed.

Lemma encode_part_length (steps_per_quarter : Z) (tokens : list string) (p : part) :
  steps_per_quarter <> 0 ->
  exists tokens', encode_part steps_per_quarter tokens p = inr tokens'
    /\ length tokens' = (length tokens + part_tokens p)%nat.
Proof.
  intros Hs. unfold encode_part, part_tokens.
  apply (for_each_length (encode_measure steps_per_quarter) measure_tokens).
  intros t m. apply encode_measure_length. exact Hs.
Qed.

Lemma sum_list_app (l1 l2 : list nat) :
  sum_list (l1 ++ l2) = (sum_list l1 + sum_list l2)%nat.
Proof. induction l1 as [| x l1 IH]; cbn; [reflexivity | rewrite IH; lia]. Qed.

Lemma measure_tokens_count (m : measure) :
  measure_tokens m
  = (1 + length m
     + 2 * (length (List.filter is_note m) + length (List.filter is_rest m))
     + sum_list (map articulation_count m))%nat.
Proof.
  unfold measure_tokens. induction m as [| el m IH]; [reflexivity |].
  destruct el; cbn in *; lia.
Qed.

Lemma part_tokens_count (p : part) :
  part_tokens p
  = (length p + length (concat p)
     + 2 * (length (List.filter is_note (concat p))
            + length (List.filter is_rest (concat p)))
     + sum_list (map articulation_count (concat p)))%nat.
Proof.
  unfold part_tokens. induction p as [| m p IH]; [reflexivity |].
  cbn [map sum_list concat length]. rewrite IH, measure_tokens_count.
  rewrite !List.filter_app, map_app, sum_list_app, !length_app. unfold id. lia.
Qed.

Lemma score_tokens_count (s : score) :
  sum_list (map part_tokens s) = token_count s.
Proof.
  unfold token_count, count_where, articulations_in, events_of, measures_of.
  induction s as [| p s IH]; [reflexivity |].
  cbn [map sum_list concat]. rewrite IH, part_tokens_count.
  rewrite !concat_app, !List.filter_app, map_app, sum_list_app, !length_app.
  unfold id. lia.
Qed.

Lemma for_each_invariant {A S : Type} (P : S -> Prop) (body : S -> A -> result S) :
  (forall s x s', P s -> body s x = inr s' -> P s') ->
  forall l s s', P s -> for_each l body s = inr s' -> P s'.
Proof.
  intros Hbody l; induction l as [| x l IH]; intros s s' Hs H; cbn in H.
  - injection H as <-. exact Hs.
  - apply result_bind_inr in H as (s1 & H1 & H2).
    exact (IH s1 s' (Hbody s x s1 Hs H1) H2).
Qed.

Lemma encode_element_zero_steps (tokens : list string) (el : element) :
  encode_element 0 tokens el = inl ZeroDivisionError.
Proof. reflexivity. Qed.

Lemma not_duration_token (prefix_ rest : string) :
  is_duration_token (prefix_ +:+ rest) = true ->
  match prefix_ with
  | String c _ => Ascii.eqb c "D" = true
  | "" => True
  end.
Proof.
  destruct prefix_ as [| c p]; [trivial |]. unfold is_duration_token.
  change (String c p +:+ rest) with (String c (p +:+ rest)). cbn [String.prefix].
  destruct (ascii_dec "D" c) as [<- | _]; intros H; [reflexivity | discriminate H].
Qed.

Lemma encode_element_grammar (steps_per_quarter : Z) (tokens tokens' : list string)
    (el : element) :
  duration_tokens_in_grammar tokens ->
  encode_element steps_per_quarter tokens el = inr tokens' ->
  duration_tokens_in_grammar tokens'.
Proof.
  unfold duration_tokens_in_grammar. intros Ht H.
  destruct (Z.eq_dec steps_per_quarter 0) as [-> | Hs].
  { rewrite encode_element_zero_steps in H. discriminate. }
  destruct (encode_element_spec steps_per_quarter tokens el Hs) as (pos & _ & Hel).
  destruct el as [o midi ql arts | o ql | o].
  - destruct Hel as (d & Hd & Hel). rewrite Hel in H. injection H as <-.
    apply Forall_app; split; [exact Ht |].
    repeat (apply Forall_cons; split).
    + intros E. apply not_duration_token in E. discriminate.
    + intros E. apply not_duration_token in E. discriminate.
    + intros _. exact (quantize_duration_in_grammar ql d Hd).
    + apply Forall_fmap, Forall_forall. intros art _ E.
      apply not_duration_token in E. discriminate.
  - destruct Hel as (d & Hd & Hel). rewrite Hel in H. injection H as <-.
    apply Forall_app; split; [exact Ht |].
    repeat (apply Forall_cons; split); [| | | constructor].
    + intros E. apply not_duration_token in E. discriminate.
    + intros E. discriminate E.
    + intros _. exact (quantize_duration_in_grammar ql d Hd).
  - rewrite Hel in H. injection H as <-.
    apply Forall_app; split; [exact Ht |].
    apply Forall_cons; split; [| constructor].
    intros E. apply not_duration_token in E. discriminate.
Qed.

Lemma encode_score_grammar (steps_per_quarter : Z) (s : score) (tokens : list string) :
  encode_score steps_per_quarter s = inr tokens -> duration_tokens_in_grammar tokens.
Proof.
  unfold encode_score.
  apply (for_each_invariant duration_tokens_in_grammar); [| constructor].
  intros t p t'. unfold encode_part.
  apply (for_each_invariant duration_tokens_in_grammar).
  intros t1 m t1' Ht1. unfold encode_measure.
  apply (for_each_invariant duration_tokens_in_grammar).
  - intros t2 el t2'. apply encode_element_grammar.
  - apply Forall_app; split; [exact Ht1 |].
    apply Forall_cons; split; [| constructor]. intros E; discriminate E.
Qed.

Lemma encode_score_length (steps_per_quarter : Z) (s : score) :
  steps_per_quarter <> 0 ->
  exists tokens, encode_score steps_per_quarter s = inr tokens
    /\ length tokens = token_count s.
Proof.
  intros Hs. unfold encode_score.
  destruct (for_each_length (encode_part steps_per_quarter) part_tokens
              (fun t p => encode_part_length steps_per_quarter t p Hs) s [])
    as (tokens & H & Hlen).
  exists tokens. split; [exact H |]. rewrite Hlen, score_tokens_count. reflexivity.
Qed.

(** ** The quantizer and the encoder: the claims *)

(** C1 (the code departs from the claim).  [quantize_position] itself
    returns [floor(offset / step)], which is [floor(4 * offset)] under its
    defaults; but the encoder passes [steps_per_quarter] as the second
    positional argument, that is as [quarter_length], so that with the
    default 4 the step is 4/4 and the Position token carries
    [floor(offset)].  A note at offset 1/2 gets [Position_0], where the
    claim announces [Position_2]. *)
Theorem C1_encoder_position_at_offbeat :
  encode_score default_steps_per_quarter offbeat_score
  = inr ["Bar"; "Position_0"; "Pitch_60"; "Duration_1/8"]
  /\ quantize_position (1 # 2) default_quarter_length default_steps_per_quarter = inr 2
  /\ Qfloor (4 * (1 # 2)) = 2
  /\ (forall offset : Q, (0 <= offset)%Q ->
        quantize_position offset (inject_Z default_steps_per_quarter)
          default_steps_per_quarter = inr (Qfloor offset)).
Proof.
  split; [reflexivity |]. split; [reflexivity |]. split; [reflexivity |].
  intros offset Ho. rewrite encoder_position by discriminate.
  f_equal. rewrite py_int_nonneg.
  - apply Qfloor_comp. unfold default_steps_per_quarter. field.
  - apply Qle_shift_div_l; [reflexivity | ring_simplify; exact Ho].
Qed.

(** C2, as stated, fails: an event that is neither a note nor a rest
    still gets its Position token. *)
Lemma C2_other_event_emits_position :
  exists tokens,
    encode_element default_steps_per_quarter [] (OtherGeneralNote 1) = inr tokens
    /\ tokens = ["Position_1"] /\ tokens <> [].
Proof. eexists. split; [reflexivity |]. split; [reflexivity | discriminate]. Qed.

(** C2 (amended).  For an event that is neither a note nor a rest the
    encoder appends exactly one token, the Position token of the event:
    the token carries the index that the encoder's call of
    [quantize_position] returns for the offset of that event, and no
    type-specific, duration or articulation token follows; when that call
    raises, the encoder raises the same exception and appends nothing. *)
Theorem C2_other_event_only_position (steps_per_quarter : Z)
    (tokens : list string) (offset : Q) :
  (forall pos : Z,
     quantize_position offset (inject_Z steps_per_quarter) default_steps_per_quarter
     = inr pos ->
     encode_element steps_per_quarter tokens (OtherGeneralNote offset)
     = inr (tokens ++ ["Position_" +:+ pretty pos]))
  /\ (forall e : exn,
        quantize_position offset (inject_Z steps_per_quarter) default_steps_per_quarter
        = inl e ->
        encode_element steps_per_quarter tokens (OtherGeneralNote offset) = inl e)
  /\ (forall tokens' : list string,
        encode_element steps_per_quarter tokens (OtherGeneralNote offset) = inr tokens' ->
        exists pos : Z,
          quantize_position offset (inject_Z steps_per_quarter) default_steps_per_quarter
          = inr pos
          /\ tokens' = tokens ++ ["Position_" +:+ pretty pos]
          /\ encode_element steps_per_quarter tokens (Rest offset 1)
             = inr (tokens ++ ["Position_" +:+ pretty pos; "Rest"; "Duration_1/4"])).
Proof.
  unfold encode_element. cbn [el_offset].
  destruct (quantize_position offset (inject_Z steps_per_quarter)
              default_steps_per_quarter) as [e | pos].
  - split; [discriminate |]. split; [intros e' [= <-]; reflexivity | discriminate].
  - split; [intros pos' [= <-]; reflexivity |]. split; [discriminate |].
    intros tokens' [= <-]. exists pos. split; [reflexivity |]. split; [reflexivity |].
    replace (quantize_duration 1) with (inr (A:=exn) "Duration_1/4") by reflexivity.
    cbn [mbind result_bind mret result_ret]. rewrite <- !app_assoc. reflexivity.
Qed.

Lemma C2_other_event_only_position_witness :
  quantize_position (5 # 2) (inject_Z 4) default_steps_per_quarter = inr 2
  /\ encode_element 4 ["Bar"] (OtherGeneralNote (5 # 2))
     = inr (["Bar"] ++ ["Position_" +:+ pretty 2]).
Proof.
  split; [reflexivity |].
  apply (proj1 (C2_other_event_only_position 4 ["Bar"] (5 # 2)) 2). reflexivity.
Defined.

(** C3, as stated, fails: a rest also gets a duration token, so a score
    made of one measure holding one rest yields four tokens, not the three
    the announced formula gives. *)
Lemma C3_rest_has_duration_token :
  encode_score default_steps_per_quarter rest_score
  = inr ["Bar"; "Position_0"; "Rest"; "Duration_1/4"]
  /\ claimed_length rest_score = 3%nat
  /\ length ["Bar"; "Position_0"; "Rest"; "Duration_1/4"] <> claimed_length rest_score.
Proof. split; [reflexivity |]. split; [reflexivity | discriminate]. Qed.

(** C3 (amended).  For every score (and a non-zero [steps_per_quarter])
    the encoder returns, and the length of the token sequence is the
    number of measures, plus one per event for its Position token, plus
    two per note and per rest (the type-specific token and the duration
    token), plus one per articulation attached to a note. *)
Theorem C3_token_sequence_length (steps_per_quarter : Z) (s : score) :
  steps_per_quarter <> 0 ->
  exists tokens,
    encode_score steps_per_quarter s = inr tokens
    /\ length tokens
       = (length (measures_of s) + length (events_of s)
          + 2 * (count_where is_note s + count_where is_rest s)
          + articulations_in s)%nat.
Proof.
  intros Hs. destruct (encode_score_length steps_per_quarter s Hs) as (tokens & H & Hlen).
  exists tokens. split; [exact H | exact Hlen].
Qed.

Lemma C3_token_sequence_length_witness :
  4 <> 0
  /\ exists tokens,
       encode_score 4 mixed_score = inr tokens
       /\ length tokens
          = (length (measures_of mixed_score) + length (events_of mixed_score)
             + 2 * (count_where is_note mixed_score + count_where is_rest mixed_score)
             + articulations_in mixed_score)%nat.
Proof.
  split; [discriminate |].
  apply (C3_token_sequence_length 4 mixed_score). discriminate.
Defined.

(** C4, as stated, fails: the table has fourteen entries, and the
    fourteenth label is one the encoder emits. *)
Lemma C4_table_has_fourteen_entries :
  length DURATION_LABELS = 14%nat
  /\ (length DURATION_LABELS =? 13)%nat = false
  /\ quantize_duration (1 # 12) = inr "Duration_1/32t"
  /\ DURATION_LABELS !! 13%nat = Some ((1 # 12)%Q, "Duration_1/32t").
Proof. repeat split; reflexivity. Qed.

(** C4 (amended).  The duration-label table is a constant with exactly
    fourteen entries whose labels are, in order, the fourteen labels the
    token grammar enumerates, all distinct; every label
    [quantize_duration] returns, and every duration token in the output of
    the encoder, is one of these fourteen. *)
Theorem C4_duration_labels_fixed :
  length DURATION_LABELS = 14%nat
  /\ map snd DURATION_LABELS = grammar_duration_labels
  /\ NoDup grammar_duration_labels
  /\ (forall duration label,
        quantize_duration duration = inr label -> label ∈ grammar_duration_labels)
  /\ (forall steps_per_quarter s tokens t,
        encode_score steps_per_quarter s = inr tokens ->
        t ∈ tokens -> is_duration_token t = true -> t ∈ grammar_duration_labels).
Proof.
  split; [reflexivity |]. split; [reflexivity |]. split.
  { apply (@bool_decide_unpack _ (NoDup_dec grammar_duration_labels)).
    vm_compute. exact I. }
  split; [exact quantize_duration_in_grammar |].
  intros spq s tokens t H Ht.
  apply encode_score_grammar in H. unfold duration_tokens_in_grammar in H.
  rewrite Forall_forall in H. exact (H t Ht).
Qed.

Lemma C4_duration_labels_fixed_witness :
  quantize_duration (1 # 12) = inr "Duration_1/32t"
  /\ "Duration_1/32t" ∈ grammar_duration_labels.
Proof.
  split; [reflexivity |].
  apply (proj1 (proj2 (proj2 (proj2 C4_duration_labels_fixed))) (1 # 12)%Q).
  reflexivity.
Defined.

(** C5.  [quantize_duration] is total: on every positive duration it
    returns, without raising, the label of a table key nearest to the
    duration; on a duration equal to a canonical key it returns that key's
    own label (1.0 gives Duration_1/4, 0.5 gives Duration_1/8); an exact
    tie, such as 0.875 between 1.0 and 0.75, is resolved to the key
    declared first. *)
Theorem C5_quantize_duration_total :
  (forall duration : Q, (0 < duration)%Q ->
     exists key label,
       (key, label) ∈ DURATION_LABELS
       /\ quantize_duration duration = inr label
       /\ forall k, k ∈ dict_keys DURATION_LABELS ->
            (Qabs (key - duration) <= Qabs (k - duration))%Q)
  /\ (forall (duration key : Q) (label : string),
        (key, label) ∈ DURATION_LABELS -> (duration == key)%Q ->
        quantize_duration duration = inr label)
  /\ quantize_duration 1 = inr "Duration_1/4"
  /\ quantize_duration (1 # 2) = inr "Duration_1/8"
  /\ (Qabs (1 - (7 # 8)) == Qabs ((3 # 4) - (7 # 8)))%Q
  /\ quantize_duration (7 # 8) = inr "Duration_1/4".
Proof.
  split; [intros duration _; apply quantize_duration_nearest |].
  split; [exact quantize_duration_exact |].
  repeat split; reflexivity.
Qed.

Lemma C5_quantize_duration_total_witness :
  (0 < 5 # 16)%Q
  /\ exists key label,
       (key, label) ∈ DURATION_LABELS
       /\ quantize_duration (5 # 16) = inr label
       /\ forall k, k ∈ dict_keys DURATION_LABELS ->
            (Qabs (key - (5 # 16)) <= Qabs (k - (5 # 16)))%Q.
Proof.
  split; [reflexivity |].
  apply (proj1 C5_quantize_duration_total (5 # 16)%Q). reflexivity.
Defined.

(** C6, as stated, fails: on a negative offset [quantize_position]
    returns an index, truncated toward zero; -0.375 gives -1. *)
Lemma C6_negative_offset_returns :
  (-3 # 8 < 0)%Q
  /\ quantize_position (-3 # 8) default_quarter_length default_steps_per_quarter
     = inr (-1).
Proof. split; reflexivity. Qed.

Lemma quantize_position_truncates (offset quarter_length : Q)
    (steps_per_quarter : Z) :
  (offset < 0)%Q -> (0 < quarter_length)%Q -> 0 < steps_per_quarter ->
  quantize_position offset quarter_length steps_per_quarter
  = inr (Qceiling (offset / (quarter_length / inject_Z steps_per_quarter)))
  /\ Qceiling (offset / (quarter_length / inject_Z steps_per_quarter)) <= 0.
Proof.
  intros Ho Hq Hs.
  assert (Hstep : (0 < quarter_length / inject_Z steps_per_quarter)%Q).
  { apply Qlt_shift_div_l; [unfold Qlt; cbn; lia | ring_simplify; exact Hq]. }
  assert (Hquot : (offset / (quarter_length / inject_Z steps_per_quarter) <= 0)%Q).
  { apply Qle_shift_div_r; [exact Hstep | ring_simplify; apply Qlt_le_weak; exact Ho]. }
  split.
  - rewrite quantize_position_ok; [| intros E; rewrite E in Hq; discriminate | lia].
    f_equal. apply py_int_nonpos. exact Hquot.
  - change 0 with (Qceiling 0). apply Qceiling_resp_le. exact Hquot.
Qed.

(** C6 (amended).  For every negative offset that is a finite float of
    magnitude below 2^1022, [quantize_position] with its default quarter
    length 1.0 and its default 4 steps per quarter raises nothing: the
    step is 1/4, the quotient is [4 * offset], computed exactly, and the
    result is that quotient truncated toward zero, which is its ceiling
    and is never positive.  Called as the encoder calls it by default
    (quarter length 4, 4 steps: the step is 1) it returns the offset
    truncated toward zero. *)
Theorem C6_negative_offset_truncates (offset : Q) :
  binary64 offset -> (offset < 0)%Q -> (- inject_Z (2 ^ 1022) < offset)%Q ->
  quantize_position offset default_quarter_length default_steps_per_quarter
  = inr (Qceiling (4 * offset))
  /\ Qceiling (4 * offset) <= 0
  /\ quantize_position offset (inject_Z default_steps_per_quarter)
       default_steps_per_quarter
     = inr (Qceiling offset)
  /\ Qceiling offset <= 0.
Proof.
  intros _ Ho _.
  destruct (quantize_position_truncates offset default_quarter_length
              default_steps_per_quarter Ho eq_refl eq_refl) as [H1 H2].
  destruct (quantize_position_truncates offset (inject_Z default_steps_per_quarter)
              default_steps_per_quarter Ho eq_refl eq_refl) as [H3 H4].
  assert (E1 : (offset / (default_quarter_length / inject_Z default_steps_per_quarter)
                == 4 * offset)%Q)
    by (unfold default_quarter_length, default_steps_per_quarter; field).
  assert (E2 : (offset / (inject_Z default_steps_per_quarter
                          / inject_Z default_steps_per_quarter) == offset)%Q)
    by (unfold default_steps_per_quarter; field).
  rewrite (Qceiling_comp _ _ E1) in H1, H2.
  rewrite (Qceiling_comp _ _ E2) in H3, H4.
  repeat split; assumption.
Qed.

Lemma C6_negative_offset_truncates_witness :
  binary64 (-3 # 8) /\ (-3 # 8 < 0)%Q /\ (- inject_Z (2 ^ 1022) < -3 # 8)%Q
  /\ quantize_position (-3 # 8) default_quarter_length default_steps_per_quarter
     = inr (Qceiling (4 * (-3 # 8)))
  /\ Qceiling (4 * (-3 # 8)) <= 0
  /\ quantize_position (-3 # 8) (inject_Z default_steps_per_quarter)
       default_steps_per_quarter
     = inr (Qceiling (-3 # 8))
  /\ Qceiling (-3 # 8) <= 0.
Proof.
  assert (Hf : binary64 (-3 # 8)).
  { exists (-3), (-3). split; [reflexivity |]. split; [split; discriminate | reflexivity]. }
  assert (Hb : (- inject_Z (2 ^ 1022) < -3 # 8)%Q) by (vm_compute; reflexivity).
  split; [exact Hf |]. split; [reflexivity |]. split; [exact Hb |].
  exact (C6_negative_offset_truncates (-3 # 8) Hf eq_refl Hb).
Defined.

(** ** Metadata merger and batch driver *)

Lemma M_bind_unfold {A B : Type} (m : M A) (f : A -> M B) (h : list event) :
  (m ≫= f) h
  = match m h with
    | (h', inl e) => (h', inl e)
    | (h', inr a) => f a h'
    end.
Proof. reflexivity. Qed.

Section PipelineFacts.

Variable parse : Path -> result score.
Variable PDMX_DICT : gmap string string.
Variable read_json : Path -> result py_object.
Variable os_ok : list event -> event -> bool.

Abbreviation load := (load_external_metadata PDMX_DICT read_json).
Abbreviation convert := (convert_xml_to_remi_musicbert parse PDMX_DICT read_json).

(** Loading never raises and only prints. *)
Lemma load_external_metadata_spec (mxl_path_relative : string) (h : list event) :
  exists log obj,
    load mxl_path_relative h = (h ++ log, inr obj)
    /\ no_artifact log
    /\ (PDMX_DICT !! mxl_path_relative = None -> obj = PyDict ∅).
Proof.
  unfold load_external_metadata.
  destruct (PDMX_DICT !! mxl_path_relative) as [v |] eqn:E.
  - unfold try_except, lift.
    destruct (read_json (metadata_json_path v)) as [e | obj].
    + eexists [_], _. split; [reflexivity |]. split; [| discriminate].
      repeat constructor.
    + exists [], obj. rewrite app_nil_r. split; [reflexivity |].
      split; [constructor | discriminate].
  - eexists [_], _. split; [reflexivity |]. split; [repeat constructor | reflexivity].
Qed.

(** Converting only prints; when it returns, the record is the loaded
    one with [filename] overlaid. *)
Lemma convert_spec (file_path : Path) (rel_mxl_path : string)
    (steps_per_quarter : Z) (h : list event) :
  exists log r,
    convert file_path rel_mxl_path steps_per_quarter h = (h ++ log, r)
    /\ no_artifact log
    /\ forall tokens metadata, r = inr (tokens, metadata) ->
         exists sc loaded,
           parse file_path = inr sc
           /\ load rel_mxl_path h = (h ++ log, inr (PyDict loaded))
           /\ metadata = <["filename" := JStr (basename (path_str file_path))]> loaded
           /\ encode_score steps_per_quarter sc = inr tokens.
Proof.
  unfold convert_xml_to_remi_musicbert.
  rewrite M_bind_unfold. unfold lift at 1.
  destruct (parse file_path) as [e | sc].
  { exists [], (inl e). rewrite app_nil_r. split; [reflexivity |].
    split; [constructor | discriminate]. }
  destruct (load_external_metadata_spec rel_mxl_path h) as (log & obj & Hl & Hlog & _).
  rewrite M_bind_unfold, Hl, M_bind_unfold. unfold lift at 1.
  destruct obj as [d | v]; cbn [setitem raise mret result_ret].
  - rewrite M_bind_unfold. unfold lift.
    destruct (encode_score steps_per_quarter sc) as [e | tokens] eqn:Henc.
    + exists log, (inl e). split; [reflexivity |]. split; [exact Hlog | discriminate].
    + eexists log, _. split; [reflexivity |]. split; [exact Hlog |].
      intros t m [= <- <-]. exists sc, d. repeat split; assumption.
  - exists log, (inl TypeError). split; [reflexivity |].
    split; [exact Hlog | discriminate].
Qed.

Abbreviation try_block := (process_try parse PDMX_DICT read_json os_ok).
Abbreviation loop_body := (process_file parse PDMX_DICT read_json os_ok).

Lemma perform_accepted (ev : event) (h : list event) :
  os_ok h ev = true -> perform os_ok ev h = (h ++ [ev], inr tt).
Proof. intros H. unfold perform. rewrite H. reflexivity. Qed.

(** The [try] block extends the history; it raises what the conversion
    raises, before any output, and otherwise persists the results when
    the operating system accepts the operations. *)
Lemma process_try_spec (output_dir metadata_csv_path : Path) (first_row : bool)
    (file : Path) (rel_path : string) (h : list event) :
  exists log rc evs r,
    convert file rel_path default_steps_per_quarter h = (h ++ log, rc)
    /\ try_block output_dir metadata_csv_path first_row file rel_path h
       = (h ++ evs, r)
    /\ (forall e, rc = inl e -> r = inl e /\ evs = log /\ no_artifact evs)
    /\ (forall tokens metadata, rc = inr (tokens, metadata) ->
          os_accepts os_ok
            (persist_events output_dir metadata_csv_path file tokens metadata first_row) ->
          r = inr false
          /\ evs = log ++ persist_events output_dir metadata_csv_path file
                             tokens metadata first_row).
Proof.
  destruct (convert_spec file rel_path default_steps_per_quarter h)
    as (log & rc & Hc & Hlog & _).
  exists log, rc. unfold process_try. rewrite M_bind_unfold, Hc.
  destruct rc as [e | [tokens metadata]].
  { exists log, (inl e). split; [reflexivity |]. split; [reflexivity |].
    split; [| discriminate]. intros e' [= <-]. auto. }
  unfold save_tokens, save_metadata_json.
  fold (tokens_path output_dir file). fold (metadata_path output_dir file).
  do 5 (rewrite ?M_bind_unfold; unfold perform at 1;
        match goal with
        | |- context [if os_ok ?hh ?ev then _ else _] =>
            let E := fresh "E" in
            destruct (os_ok hh ev) eqn:E;
            [ cbn iota beta
            | cbn iota beta; rewrite <- ?app_assoc;
              eexists _, (inl OSError);
              split; [reflexivity |]; split; [reflexivity |];
              split; [discriminate |];
              intros t m [= <- <-] Hacc;
              rewrite Hacc in E by (unfold persist_events; elem_solve);
              discriminate ]
        end).
  rewrite <- ?app_assoc.
  exists (log ++ persist_events output_dir metadata_csv_path file tokens metadata first_row),
    (inr false).
  split; [reflexivity |]. split; [reflexivity |].
  split; [discriminate |]. intros t m [= <- <-] _. split; reflexivity.
Qed.

Lemma for_each_M_app {A S : Type} (body : S -> A -> M S) (l1 l2 : list A)
    (st : S) (h : list event) :
  for_each_M (l1 ++ l2) body st h
  = match for_each_M l1 body st h with
    | (h', inl e) => (h', inl e)
    | (h', inr st') => for_each_M l2 body st' h'
    end.
Proof.
  revert st h; induction l1 as [| x l1 IH]; intros st h; [reflexivity |].
  cbn [app for_each_M]. rewrite !M_bind_unfold.
  destruct (body st x h) as [h' [e | st']]; [reflexivity | apply IH].
Qed.

(** The loop body never lets an exception of the [try] block escape. *)
Lemma process_file_spec (output_dir metadata_csv_path : Path) (first_row : bool)
    (file : Path) (h : list event) :
  under_project_root file ->
  exists log rc evs fr',
    let h0 := h ++ [Print (MsgProcessing (rel_path_of file))] in
    convert file (rel_path_of file) default_steps_per_quarter h0 = (h0 ++ log, rc)
    /\ loop_body output_dir metadata_csv_path first_row file h = (h0 ++ evs, inr fr')
    /\ (forall e, rc = inl e ->
          evs = log ++ [Print (MsgErrorProcessing file e)]
          /\ no_artifact evs /\ fr' = first_row)
    /\ (forall tokens metadata, rc = inr (tokens, metadata) ->
          os_accepts os_ok
            (persist_events output_dir metadata_csv_path file tokens metadata first_row) ->
          evs = log ++ persist_events output_dir metadata_csv_path file
                         tokens metadata first_row
          /\ fr' = false).
Proof.
  intros [rel Hrel]. unfold process_file, rel_path_of. rewrite Hrel.
  rewrite M_bind_unfold. unfold lift. rewrite M_bind_unfold. unfold print at 1.
  unfold try_except.
  destruct (process_try_spec output_dir metadata_csv_path first_row file
              ("./" +:+ path_str rel) (h ++ [Print (MsgProcessing ("./" +:+ path_str rel))]))
    as (log & rc & evs & r & Hc & Ht & Hfail & Hok).
  exists log, rc. cbn zeta. rewrite Ht.
  destruct r as [e | b].
  - rewrite M_bind_unfold. unfold print.
    eexists (evs ++ [_]), first_row. split; [exact Hc |].
    split; [rewrite <- app_assoc; reflexivity |]. split.
    + intros e' ->. destruct (Hfail e' eq_refl) as ([= <-] & -> & Hna).
      split; [reflexivity |]. split; [| reflexivity].
      apply Forall_app; split; [exact Hna | repeat constructor].
    + intros t m -> Hacc. destruct (Hok t m eq_refl Hacc) as [[=] _].
  - exists evs, b. split; [exact Hc |]. split; [reflexivity |]. split.
    + intros e ->. destruct (Hfail e eq_refl) as [[=] _].
    + intros t m -> Hacc. destruct (Hok t m eq_refl Hacc) as ([= <-] & ->).
      split; reflexivity.
Qed.

Lemma accepted_prefix (ops : list event) (h : list event) :
  accepted os_ok h ops `prefix_of` ops.
Proof.
  revert h; induction ops as [| ev ops IH]; intros h; cbn [accepted].
  - apply prefix_nil.
  - destruct (os_ok h ev); [apply prefix_cons, IH | apply prefix_nil].
Qed.

Lemma accepted_all (ops : list event) (h : list event) :
  os_accepts os_ok ops -> accepted os_ok h ops = ops.
Proof.
  revert h; induction ops as [| ev ops IH]; intros h Hacc; [reflexivity |].
  cbn [accepted]. rewrite (Hacc h ev) by (left; reflexivity).
  f_equal. apply IH. intros h' ev' Hin. apply Hacc. right; exact Hin.
Qed.

(** The [try] block in full: it raises what the conversion raises,
    before any output; otherwise it attempts the five persisting
    operations in order, stops at the first the operating system
    refuses and raises [OSError] there, what was performed staying in
    the history. *)
Lemma process_try_full (output_dir metadata_csv_path : Path) (first_row : bool)
    (file : Path) (rel_path : string) (h : list event) :
  exists log rc,
    convert file rel_path default_steps_per_quarter h = (h ++ log, rc)
    /\ no_artifact log
    /\ (forall e, rc = inl e ->
          try_block output_dir metadata_csv_path first_row file rel_path h
          = (h ++ log, inl e))
    /\ (forall tokens metadata, rc = inr (tokens, metadata) ->
          let ops := persist_events output_dir metadata_csv_path file
                       tokens metadata first_row in
          let done := accepted os_ok (h ++ log) ops in
          done = ops
          /\ try_block output_dir metadata_csv_path first_row file rel_path h
             = (h ++ log ++ ops, inr false)
          \/ done <> ops
             /\ try_block output_dir metadata_csv_path first_row file rel_path h
                = (h ++ log ++ done, inl OSError)).
Proof.
  destruct (convert_spec file rel_path default_steps_per_quarter h)
    as (log & rc & Hc & Hlog & _).
  exists log, rc. split; [exact Hc |]. split; [exact Hlog |].
  unfold process_try. rewrite M_bind_unfold, Hc.
  destruct rc as [e | [tokens metadata]].
  { split; [| discriminate]. intros e' [= <-]. reflexivity. }
  split; [discriminate |]. intros t m [= <- <-]. cbn zeta.
  set (ops := persist_events output_dir metadata_csv_path file tokens metadata first_row).
  enough (H : exists r,
            (_ ← save_tokens os_ok tokens file output_dir;
             _ ← save_metadata_json os_ok metadata file output_dir;
             _ ← perform os_ok (AppendCsv metadata_csv_path metadata first_row);
             mret false) (h ++ log) = r
            /\ (accepted os_ok (h ++ log) ops = ops /\ r = (h ++ log ++ ops, inr false)
                \/ accepted os_ok (h ++ log) ops <> ops
                   /\ r = (h ++ log ++ accepted os_ok (h ++ log) ops, inl OSError))).
  { destruct H as (r & -> & H). exact H. }
  unfold save_tokens, save_metadata_json.
  fold (tokens_path output_dir file). fold (metadata_path output_dir file).
  subst ops. unfold persist_events.
  do 5 (rewrite ?M_bind_unfold; unfold perform at 1;
        match goal with
        | |- context [if os_ok ?hh ?ev then _ else _] =>
            let E := fresh "E" in
            destruct (os_ok hh ev) eqn:E;
            [ cbn iota beta
            | cbn iota beta; eexists; split; [reflexivity |]; right;
              cbn [accepted];
              repeat (match goal with
                      | E' : os_ok _ _ = _ |- _ => rewrite E'
                      end; cbn iota beta);
              split; [discriminate |];
              rewrite ?app_nil_r, <- ?app_assoc; reflexivity ]
        end).
  eexists; split; [reflexivity |]. left.
  cbn [accepted].
  repeat (match goal with
          | E' : os_ok _ _ = _ |- _ => rewrite E'
          end; cbn iota beta).
  split; [reflexivity |]. rewrite <- ?app_assoc. reflexivity.
Qed.

(** The loop body in full. *)
Lemma process_file_full (output_dir metadata_csv_path : Path) (first_row : bool)
    (file : Path) (h : list event) :
  under_project_root file ->
  exists log rc evs fr',
    let h0 := h ++ [Print (MsgProcessing (rel_path_of file))] in
    convert file (rel_path_of file) default_steps_per_quarter h0 = (h0 ++ log, rc)
    /\ loop_body output_dir metadata_csv_path first_row file h = (h0 ++ evs, inr fr')
    /\ (forall e, rc = inl e ->
          evs = log ++ [Print (MsgErrorProcessing file e)]
          /\ no_artifact evs /\ fr' = first_row)
    /\ (forall tokens metadata, rc = inr (tokens, metadata) ->
          let ops := persist_events output_dir metadata_csv_path file
                       tokens metadata first_row in
          let done := accepted os_ok (h0 ++ log) ops in
          done = ops /\ evs = log ++ ops /\ fr' = false
          \/ done <> ops
             /\ evs = log ++ done ++ [Print (MsgErrorProcessing file OSError)]
             /\ fr' = first_row).
Proof.
  intros [rel Hrel]. unfold process_file, rel_path_of. rewrite Hrel.
  rewrite M_bind_unfold. unfold lift. rewrite M_bind_unfold. unfold print at 1.
  unfold try_except. cbn zeta.
  set (h0 := h ++ [Print (MsgProcessing ("./" +:+ path_str rel))]).
  destruct (process_try_full output_dir metadata_csv_path first_row file
              ("./" +:+ path_str rel) h0)
    as (log & rc & Hc & Hlog & Hfail & Hok).
  exists log, rc.
  destruct rc as [e | [tokens metadata]].
  - rewrite (Hfail e eq_refl). rewrite M_bind_unfold. unfold print.
    exists (log ++ [Print (MsgErrorProcessing file e)]), first_row.
    split; [exact Hc |]. split; [rewrite <- app_assoc; reflexivity |].
    split; [| discriminate]. intros e' [= <-].
    split; [reflexivity |]. split; [| reflexivity].
    apply Forall_app; split; [exact Hlog | repeat constructor].
  - destruct (Hok tokens metadata eq_refl) as [[Hd Ht] | [Hd Ht]]; rewrite Ht.
    + eexists _, false. split; [exact Hc |]. split; [reflexivity |].
      split; [discriminate |]. intros t m [= <- <-].
      left. split; [exact Hd |]. split; reflexivity.
    + rewrite M_bind_unfold. unfold print.
      eexists _, first_row. split; [exact Hc |].
      split; [rewrite <- !app_assoc; reflexivity |].
      split; [discriminate |]. intros t m [= <- <-].
      right. split; [exact Hd |]. split; reflexivity.
Qed.

(** The loop goes through every file and returns. *)
Lemma loop_returns (output_dir metadata_csv_path : Path) (files : list Path)
    (first_row : bool) (h : list event) :
  Forall under_project_root files ->
  exists evs fr',
    for_each_M files (loop_body output_dir metadata_csv_path) first_row h
    = (h ++ evs, inr fr').
Proof.
  intros Hall; revert first_row h.
  induction Hall as [| file files Hfile _ IH]; intros first_row h.
  - exists [], first_row. rewrite app_nil_r. reflexivity.
  - cbn [for_each_M]. rewrite M_bind_unfold.
    destruct (process_file_spec output_dir metadata_csv_path first_row file h Hfile)
      as (log & rc & evs & fr' & _ & Hb & _). cbn zeta in Hb. rewrite Hb.
    destruct (IH fr' ((h ++ [Print (MsgProcessing (rel_path_of file))]) ++ evs))
      as (evs' & fr'' & ->).
    eexists _, fr''. rewrite <- !app_assoc. reflexivity.
Qed.

End PipelineFacts.

Section PipelineClaims.

Variable parse : Path -> result score.
Variable PDMX_DICT : gmap string string.
Variable read_json : Path -> result py_object.
Variable os_ok : list event -> event -> bool.
Variable rglob_mxl : Path -> list Path.

(** C7 (amended).  In the batch driver an exception raised while
    encoding or persisting a file is caught and reported, and the run
    goes on: whatever the parser, the JSON reader and the operating
    system do, [batch_process] goes through every file found (all of
    them under the project root, the output directory having been
    created) and returns.  A file whose conversion raises (parsing,
    metadata merge or encoding) adds its error line and no output
    artifact.  A file whose conversion returns has its five persisting
    operations attempted in order (directory, token file, directory,
    metadata file, row): when all are performed it gets its token file,
    its metadata file and its row, whatever happened to the files
    before it; when one is refused, the [OSError] is reported on an
    error line, the header flag is left as it was, and the operations
    performed before the refusal stay, so that the token file already
    written is left behind. *)
Theorem C7_batch_isolates_failures (input_dir output_dir : Path)
    (files1 : list Path) (file : Path) (files2 : list Path) (h : list event) :
  rglob_mxl input_dir = files1 ++ file :: files2 ->
  Forall under_project_root (rglob_mxl input_dir) ->
  os_ok h (MakeDirs output_dir) = true ->
  file_outcome parse PDMX_DICT read_json os_ok rglob_mxl
    input_dir output_dir files1 file files2 h.
Proof.
  intros Hfiles Hall Hmk. rewrite Hfiles in Hall.
  apply Forall_app in Hall as [Hall1 Hall2].
  apply Forall_cons in Hall2 as [Hfile Hall2].
  unfold file_outcome. cbn zeta.
  set (csv := output_dir // "all_metadata.csv").
  destruct (loop_returns parse PDMX_DICT read_json os_ok output_dir csv files1 true
              (h ++ [MakeDirs output_dir]) Hall1) as (evs1 & fr1 & H1).
  set (h1 := (h ++ [MakeDirs output_dir]) ++ evs1) in *.
  destruct (process_file_full parse PDMX_DICT read_json os_ok output_dir csv fr1
              file h1 Hfile) as (log & rc & evs & fr2 & Hc & Hb & Hfail & Hok).
  cbn zeta in Hc, Hb, Hok.
  set (h0 := h1 ++ [Print (MsgProcessing (rel_path_of file))]) in *.
  destruct (loop_returns parse PDMX_DICT read_json os_ok output_dir csv files2 fr2
              (h0 ++ evs) Hall2) as (rest & fr3 & H2).
  exists h1, fr1, log, rc, evs, fr2, rest, fr3.
  split; [exact H1 |]. split; [exact Hc |]. split; [exact Hb |].
  subst h0.
  split; [rewrite H2, <- app_assoc; reflexivity |].
  split.
  { unfold batch_process. rewrite M_bind_unfold, (perform_accepted _ _ _ Hmk).
    fold csv. rewrite M_bind_unfold, Hfiles, for_each_M_app, H1.
    cbn [for_each_M]. rewrite M_bind_unfold, Hb, H2.
    unfold print. rewrite <- !app_assoc. reflexivity. }
  split; [exact Hfail |].
  intros tokens metadata Hrc. specialize (Hok tokens metadata Hrc).
  set (ops := persist_events output_dir csv file tokens metadata fr1) in *.
  set (done := accepted os_ok _ ops) in *.
  split.
  { intros Hacc.
    pose proof (accepted_all os_ok ops
                  ((h1 ++ [Print (MsgProcessing (rel_path_of file))]) ++ log) Hacc)
      as Hall.
    fold done in Hall.
    destruct Hok as [(_ & He & Hf) | (Hd & _)]; [split; assumption | contradiction]. }
  split; [exact Hok |].
  split; [apply accepted_prefix |].
  intros E1 E2.
  assert (Hin : WriteFile (tokens_path output_dir file)
                  (TokenText (String.concat " " tokens)) ∈ done).
  { subst done ops. unfold persist_events. cbn [accepted]. rewrite E1, E2.
    right; left. }
  destruct Hok as [(_ & -> & _) | (_ & -> & _)].
  - apply elem_of_app; right.
    unfold ops, persist_events. right; left.
  - apply elem_of_app; right. apply elem_of_app; left. exact Hin.
Qed.

(** C8.  For every score the conversion returns for, the metadata
    record is the loaded record with the key [filename] set to the base
    name of the source file, replacing any loaded value of that key;
    when the index has no entry for the relative path, the record is
    exactly the one key [filename]. *)
Theorem C8_metadata_filename (file_path : Path) (rel_mxl_path : string)
    (steps_per_quarter : Z) (h h' : list event)
    (tokens : list string) (metadata : gmap string jvalue) :
  convert_xml_to_remi_musicbert parse PDMX_DICT read_json
    file_path rel_mxl_path steps_per_quarter h = (h', inr (tokens, metadata)) ->
  metadata !! "filename" = Some (JStr (basename (path_str file_path)))
  /\ (exists loaded,
        snd (load_external_metadata PDMX_DICT read_json rel_mxl_path h)
        = inr (PyDict loaded)
        /\ metadata = <["filename" := JStr (basename (path_str file_path))]> loaded
        /\ forall k, k <> "filename" -> metadata !! k = loaded !! k)
  /\ (PDMX_DICT !! rel_mxl_path = None ->
      metadata = {[ "filename" := JStr (basename (path_str file_path)) ]}).
Proof.
  intros H.
  destruct (convert_spec parse PDMX_DICT read_json file_path rel_mxl_path
              steps_per_quarter h) as (log & r & Hc & _ & Hr).
  rewrite Hc in H. injection H as _ ->.
  destruct (Hr tokens metadata eq_refl) as (sc & loaded & _ & Hl & -> & _).
  split; [apply lookup_insert_eq |]. split.
  - exists loaded. rewrite Hl. split; [reflexivity |]. split; [reflexivity |].
    intros k Hk. apply lookup_insert_ne. congruence.
  - intros Hnone.
    destruct (load_external_metadata_spec PDMX_DICT read_json rel_mxl_path h)
      as (log' & obj & Hl' & _ & Hempty).
    rewrite Hl in Hl'. injection Hl' as _ <-.
    specialize (Hempty Hnone). injection Hempty as ->.
    apply insert_empty.
Qed.

End PipelineClaims.

(** C10.  The path of a metadata file is the project root joined with
    the index value stripped of every leading [.] and [/]: any prefix made
    of these two characters is dropped, what is left starts with neither,
    and so [../meta.json] resolves to [meta.json] under the project root,
    as [./.hidden/meta.json] resolves to [hidden/meta.json] there. *)
Theorem C10_metadata_path_strips_dots_and_slashes :
  (forall p v : string,
     all_in p "./" = true ->
     lstrip (p +:+ v) "./" = lstrip v "./"
     /\ metadata_json_path (p +:+ v) = metadata_json_path v)
  /\ (forall v : string,
        match lstrip v "./" with
        | String c _ => c <> "."%char /\ c <> "/"%char
        | "" => True
        end)
  /\ lstrip "../meta.json" "./" = "meta.json"
  /\ metadata_json_path "../meta.json" = PROJECT_ROOT // "meta.json"
  /\ path_str (metadata_json_path "../meta.json")
     = "/mnt/c/Users/james/projects/transmusetate/project_root/meta.json"
  /\ path_str (metadata_json_path "./.hidden/meta.json")
     = "/mnt/c/Users/james/projects/transmusetate/project_root/hidden/meta.json".
Proof.
  assert (Hstrip : forall p v, all_in p "./" = true ->
                     lstrip (p +:+ v) "./" = lstrip v "./").
  { induction p as [| c p IH]; intros v Hp; [reflexivity |].
    cbn [all_in] in Hp. apply andb_prop in Hp as [Hc Hp].
    change (String c p +:+ v) with (String c (p +:+ v)).
    cbn [lstrip]. rewrite Hc. apply IH. exact Hp. }
  split.
  { intros p v Hp. split; [apply Hstrip; exact Hp |].
    unfold metadata_json_path. rewrite Hstrip by exact Hp. reflexivity. }
  split.
  { induction v as [| c v IH]; [exact I |].
    cbn [lstrip]. destruct (mem_char c "./") eqn:E; [exact IH |].
    cbn [mem_char] in E. rewrite orb_false_r in E. apply orb_false_elim in E as [E1 E2].
    split; intros ->; discriminate. }
  repeat split; reflexivity.
Qed.

Lemma C10_metadata_path_strips_dots_and_slashes_witness :
  all_in "././/.." "./" = true
  /\ lstrip ("././/.." +:+ "data/7.json") "./" = lstrip "data/7.json" "./"
  /\ metadata_json_path ("././/.." +:+ "data/7.json") = metadata_json_path "data/7.json".
Proof.
  split; [reflexivity |].
  apply (proj1 C10_metadata_path_strips_dots_and_slashes "././/.." "data/7.json").
  reflexivity.
Defined.


(** C7, as stated, fails: where metadata files cannot be written, the
    exception raised while persisting [c.mxl] is caught and reported, but
    the token file of that failing file has already been written. *)
Lemma C7_failed_file_leaves_token_file :
  process_file sample_parse sample_index sample_read_json os_refuses_metadata
    RESULTS_DIR (RESULTS_DIR // "all_metadata.csv") true (sample_file "c.mxl") []
  = ([ Print (MsgProcessing "./mxl/c.mxl");
       Print (MsgNoMetadataEntry "./mxl/c.mxl");
       MakeDirs RESULTS_DIR;
       WriteFile (RESULTS_DIR // "c.remi.txt")
         (TokenText "Bar Position_0 Rest Duration_1/4");
       MakeDirs RESULTS_DIR;
       Print (MsgErrorProcessing (sample_file "c.mxl") OSError) ],
     inr true)
  /\ is_artifact (WriteFile (RESULTS_DIR // "c.remi.txt")
                    (TokenText "Bar Position_0 Rest Duration_1/4")) = true.
Proof. split; vm_compute; reflexivity. Qed.

Lemma C7_batch_isolates_failures_witness :
  sample_rglob MXL_DIR
  = [sample_file "a.mxl"; sample_file "broken.mxl"] ++ sample_file "c.mxl" :: []
  /\ Forall under_project_root (sample_rglob MXL_DIR)
  /\ os_refuses_metadata [] (MakeDirs RESULTS_DIR) = true
  /\ file_outcome sample_parse sample_index sample_read_json os_refuses_metadata
       sample_rglob MXL_DIR RESULTS_DIR
       [sample_file "a.mxl"; sample_file "broken.mxl"] (sample_file "c.mxl") [] [].
Proof.
  assert (Hall : Forall under_project_root (sample_rglob MXL_DIR)).
  { unfold sample_rglob.
    repeat (apply Forall_cons; split; [eexists; vm_compute; reflexivity |]).
    constructor. }
  split; [reflexivity |]. split; [exact Hall |]. split; [reflexivity |].
  exact (C7_batch_isolates_failures sample_parse sample_index sample_read_json
           os_refuses_metadata sample_rglob MXL_DIR RESULTS_DIR
           [sample_file "a.mxl"; sample_file "broken.mxl"] (sample_file "c.mxl") [] []
           eq_refl Hall eq_refl).
Defined.

Lemma C8_metadata_filename_witness :
  convert_xml_to_remi_musicbert sample_parse sample_index sample_read_json
    (sample_file "a.mxl") "./mxl/a.mxl" 4 [] = ([], inr (sample_tokens, sample_metadata))
  /\ sample_metadata !! "filename" = Some (JStr (basename (path_str (sample_file "a.mxl"))))
  /\ (exists loaded,
        snd (load_external_metadata sample_index sample_read_json "./mxl/a.mxl" [])
        = inr (PyDict loaded)
        /\ sample_metadata
           = <["filename" := JStr (basename (path_str (sample_file "a.mxl")))]> loaded
        /\ forall k, k <> "filename" -> sample_metadata !! k = loaded !! k)
  /\ (sample_index !! "./mxl/a.mxl" = None ->
      sample_metadata
      = {[ "filename" := JStr (basename (path_str (sample_file "a.mxl"))) ]}).
Proof.
  assert (H : convert_xml_to_remi_musicbert sample_parse sample_index sample_read_json
                (sample_file "a.mxl") "./mxl/a.mxl" 4 []
              = ([], inr (sample_tokens, sample_metadata)))
    by (vm_compute; reflexivity).
  split; [exact H |].
  exact (C8_metadata_filename sample_parse sample_index sample_read_json
           (sample_file "a.mxl") "./mxl/a.mxl" 4 [] [] sample_tokens sample_metadata H).
Defined.

(** The three sample files with a willing operating system: the first and
    the third get their token file, metadata file and row; the header goes
    with the first row only; the second leaves nothing. *)
Example batch_three_files :
  List.filter is_artifact
    (fst (batch_process sample_parse sample_index sample_read_json os_accepts_all
            sample_rglob MXL_DIR RESULTS_DIR []))
  = [ WriteFile (RESULTS_DIR // "a.remi.txt") (TokenText "Bar Position_0 Rest Duration_1/4");
      WriteFile (RESULTS_DIR // "a.metadata.json") (JsonText sample_metadata);
      AppendCsv (RESULTS_DIR // "all_metadata.csv") sample_metadata true;
      WriteFile (RESULTS_DIR // "c.remi.txt") (TokenText "Bar Position_0 Rest Duration_1/4");
      WriteFile (RESULTS_DIR // "c.metadata.json") (JsonText {[ "filename" := JStr "c.mxl" ]});
      AppendCsv (RESULTS_DIR // "all_metadata.csv") {[ "filename" := JStr "c.mxl" ]} false ].
Proof. vm_compute. reflexivity. Qed.

(** ** Vocabulary builder *)

Module VocabularyFacts.
Import Vocabulary.

Lemma insert_ranked_elem (freq : string -> nat) (w x : string) (l : list string) :
  x ∈ insert_ranked freq w l <-> x = w \/ x ∈ l.
Proof.
  induction l as [| y l IH]; cbn.
  - rewrite list_elem_of_singleton, elem_of_nil. tauto.
  - destruct (freq y <=? freq w)%nat.
    + rewrite elem_of_cons. tauto.
    + rewrite !elem_of_cons, IH. tauto.
Qed.

Lemma rank_elem (freq : string -> nat) (x : string) (l : list string) :
  x ∈ rank freq l <-> x ∈ l.
Proof.
  unfold rank. induction l as [| y l IH]; cbn; [reflexivity |].
  rewrite insert_ranked_elem, elem_of_cons, IH. reflexivity.
Qed.

(** In a ranked list no token is followed by a more frequent one. *)
Lemma insert_ranked_sorted (freq : string -> nat) (w : string) (l : list string) :
  StronglySorted (fun a b => (freq b <= freq a)%nat) l ->
  StronglySorted (fun a b => (freq b <= freq a)%nat) (insert_ranked freq w l).
Proof.
  induction 1 as [| y l Hs IH Hy]; cbn.
  - repeat constructor.
  - destruct (freq y <=? freq w)%nat eqn:E.
    + apply Nat.leb_le in E. constructor; [constructor; assumption |].
      constructor; [exact E |].
      eapply Forall_impl; [exact Hy |]. cbn. intros z Hz. lia.
    + apply Nat.leb_gt in E. constructor; [exact IH |].
      apply Forall_forall. intros z Hz.
      apply insert_ranked_elem in Hz as [-> | Hz]; [lia |].
      rewrite Forall_forall in Hy. exact (Hy z Hz).
Qed.

Lemma rank_sorted (freq : string -> nat) (l : list string) :
  StronglySorted (fun a b => (freq b <= freq a)%nat) (rank freq l).
Proof.
  unfold rank. induction l as [| y l IH]; cbn; [constructor |].
  apply insert_ranked_sorted. exact IH.
Qed.

(** A cut of a ranked list that keeps a token keeps every more frequent
    token of the list. *)
Lemma take_sorted_upward (freq : string -> nat) (l : list string) (n : nat)
    (a b : string) :
  StronglySorted (fun a b => (freq b <= freq a)%nat) l ->
  b ∈ take n l -> a ∈ l -> (freq b < freq a)%nat -> a ∈ take n l.
Proof.
  intros Hs; revert n; induction Hs as [| y l Hs IH Hy]; intros n Hb Ha Hlt.
  - apply elem_of_nil in Ha as [].
  - destruct n as [| n]; [apply elem_of_nil in Hb as [] |].
    cbn [take] in *. rewrite Forall_forall in Hy.
    apply elem_of_cons in Ha as [-> | Ha]; [left |].
    apply elem_of_cons in Hb as [-> | Hb].
    + specialize (Hy a Ha). lia.
    + right. apply IH; assumption.
Qed.

Lemma existsb_eqb_elem (w : string) (seen : list string) :
  existsb (String.eqb w) seen = true <-> w ∈ seen.
Proof.
  rewrite existsb_exists, list_elem_of_In. split.
  - intros (x & Hx & E). apply String.eqb_eq in E as ->. exact Hx.
  - intros H. exists w. split; [exact H | apply String.eqb_refl].
Qed.

Lemma first_seen_elem (w : string) (corpus seen : list string) :
  w ∈ first_seen seen corpus <-> w ∈ corpus /\ w ∉ seen.
Proof.
  revert seen; induction corpus as [| x corpus IH]; intros seen; cbn.
  - rewrite elem_of_nil. tauto.
  - destruct (existsb (String.eqb x) seen) eqn:E.
    + apply existsb_eqb_elem in E. rewrite IH, elem_of_cons.
      split; [tauto |]. intros [[-> | H] Hn]; [contradiction | tauto].
    + assert (Hx : x ∉ seen).
      { intros H. apply existsb_eqb_elem in H. congruence. }
      rewrite !elem_of_cons, IH, not_elem_of_cons.
      destruct (decide (w = x)) as [-> | Hne]; [tauto |]. tauto.
Qed.

Lemma frequent_in_corpus (corpus : list string) (w : string) :
  (0 < frequency corpus w)%nat -> w ∈ rank (frequency corpus) (first_seen [] corpus).
Proof.
  intros H. apply rank_elem, first_seen_elem. split; [| apply not_elem_of_nil].
  unfold frequency in H. apply list_elem_of_In, (count_occ_In string_dec). lia.
Qed.

(** The vocabulary: the five specials, then the first 507 ranked tokens. *)
Lemma train_unfold (lines : list string) :
  train lines
  = special_tokens
    ++ take 507 (rank (frequency (flat_map words lines))
                   (first_seen [] (flat_map words lines))).
Proof.
  unfold train, train_with. rewrite take_app. reflexivity.
Qed.

Lemma special_ids (rest : list string) (i : nat) (tok : string) :
  special_tokens !! i = Some tok ->
  token_to_id (special_tokens ++ rest) tok = Some i.
Proof.
  unfold token_to_id. intros H.
  do 5 (destruct i as [| i]; [injection H as <-; reflexivity |]).
  discriminate H.
Qed.

Lemma token_to_id_bound (vocab : list string) (w : string) (i : nat) :
  token_to_id vocab w = Some i -> (i < length vocab)%nat.
Proof.
  unfold token_to_id. intros H.
  apply fmap_Some in H as ([j x] & Hf & ->).
  apply list_find_Some in Hf as (Hl & _). exact (lookup_lt_Some _ _ _ Hl).
Qed.

Lemma token_to_id_None (vocab : list string) (w : string) :
  w ∉ vocab -> token_to_id vocab w = None.
Proof.
  intros H. unfold token_to_id.
  rewrite (proj2 (list_find_None (eq w) vocab)); [reflexivity |].
  apply Forall_forall. intros x Hx ->. contradiction.
Qed.

Lemma insert_ranked_perm (freq : string -> nat) (w : string) (l : list string) :
  insert_ranked freq w l ≡ₚ w :: l.
Proof.
  induction l as [| x l IH]; cbn; [reflexivity |].
  destruct (freq x <=? freq w)%nat; [reflexivity |].
  rewrite IH. apply Permutation_swap.
Qed.

Lemma rank_perm (freq : string -> nat) (l : list string) : rank freq l ≡ₚ l.
Proof.
  unfold rank. induction l as [| x l IH]; cbn; [reflexivity |].
  rewrite insert_ranked_perm, IH. reflexivity.
Qed.

Lemma first_seen_NoDup (seen corpus : list string) : NoDup (first_seen seen corpus).
Proof.
  revert seen; induction corpus as [| x corpus IH]; intros seen; cbn.
  - constructor.
  - destruct (existsb (String.eqb x) seen); [apply IH |].
    apply NoDup_cons. split; [| apply IH].
    rewrite first_seen_elem, not_elem_of_cons. tauto.
Qed.

(** The ranked corpus tokens: no token twice, exactly the tokens of the
    corpus, as many as it has distinct tokens. *)
Lemma ranked_NoDup (corpus : list string) :
  NoDup (rank (frequency corpus) (first_seen [] corpus)).
Proof. rewrite rank_perm. apply first_seen_NoDup. Qed.

Lemma ranked_elem (corpus : list string) (w : string) :
  w ∈ rank (frequency corpus) (first_seen [] corpus) <-> w ∈ corpus.
Proof.
  rewrite rank_elem, first_seen_elem. split; [tauto |].
  intros H. split; [exact H | apply not_elem_of_nil].
Qed.

Lemma in_corpus_frequency (corpus : list string) (w : string) :
  w ∈ corpus <-> (0 < frequency corpus w)%nat.
Proof.
  unfold frequency. rewrite list_elem_of_In, (count_occ_In string_dec). lia.
Qed.

Lemma ranked_length (corpus : list string) :
  length (rank (frequency corpus) (first_seen [] corpus))
  = length (remove_dups corpus).
Proof.
  apply Permutation_length, NoDup_Permutation.
  - apply ranked_NoDup.
  - apply NoDup_remove_dups.
  - intros x. rewrite ranked_elem, elem_of_remove_dups. reflexivity.
Qed.

Lemma sorted_lookup (freq : string -> nat) (l : list string) (i j : nat)
    (a b : string) :
  StronglySorted (fun a b => (freq b <= freq a)%nat) l ->
  (i < j)%nat -> l !! i = Some a -> l !! j = Some b -> (freq b <= freq a)%nat.
Proof.
  intros Hs; revert i j; induction Hs as [| y l Hs IH Hy]; intros i j Hij Hi Hj.
  - discriminate Hi.
  - destruct j as [| j]; [lia |]. cbn in Hj.
    destruct i as [| i].
    + injection Hi as ->. rewrite Forall_forall in Hy.
      apply Hy. exact (list_elem_of_lookup_2 _ _ _ Hj).
    + cbn in Hi. apply (IH i j); [lia | assumption | assumption].
Qed.

Lemma sorted_before (freq : string -> nat) (l1 l2 : list string) (a x : string) :
  StronglySorted (fun a b => (freq b <= freq a)%nat) (l1 ++ a :: l2) ->
  x ∈ l1 -> (freq a <= freq x)%nat.
Proof.
  induction l1 as [| y l1 IH]; intros Hs Hx; [apply elem_of_nil in Hx as [] |].
  cbn [app] in Hs. apply StronglySorted_inv in Hs as [Hs Hy].
  apply elem_of_cons in Hx as [-> | Hx]; [| exact (IH Hs Hx)].
  rewrite Forall_forall in Hy. apply Hy.
  apply elem_of_app. right; left.
Qed.

(** A token of a ranked list with fewer than [n] tokens no rarer than it,
    itself included, survives the cut to [n]. *)
Lemma take_keeps_frequent (freq : string -> nat) (l pool : list string) (n : nat)
    (a : string) :
  StronglySorted (fun a b => (freq b <= freq a)%nat) l ->
  NoDup l -> a ∈ l ->
  (forall x, x ∈ l -> (freq a <= freq x)%nat -> x ∈ pool) ->
  (length pool <= n)%nat ->
  a ∈ take n l.
Proof.
  intros Hs Hnd Ha Hpool Hlen.
  destruct (list_elem_of_split _ _ Ha) as (l1 & l2 & ->).
  assert (Hsub : a :: l1 ⊆+ pool).
  { apply NoDup_submseteq.
    - rewrite <- Permutation_middle in Hnd.
      apply NoDup_cons in Hnd as [Hn Hnd]. apply NoDup_app in Hnd as (Hnd & _ & _).
      apply NoDup_cons. split; [| exact Hnd].
      intros Hin. apply Hn. apply elem_of_app. left; exact Hin.
    - intros x Hx. apply elem_of_cons in Hx as [-> | Hx].
      + apply Hpool; [exact Ha | lia].
      + apply Hpool; [apply elem_of_app; left; exact Hx |].
        exact (sorted_before freq l1 l2 a x Hs Hx). }
  apply submseteq_length in Hsub. cbn [length] in Hsub.
  apply elem_of_take. exists (length l1). split; [| lia].
  apply list_lookup_middle. reflexivity.
Qed.

(** A token with at least [n] more frequent tokens in a ranked list does
    not survive the cut to [n]. *)
Lemma take_drops_rare (freq : string -> nat) (l pool : list string) (n : nat)
    (b : string) :
  StronglySorted (fun a b => (freq b <= freq a)%nat) l ->
  NoDup pool ->
  (forall x, x ∈ pool -> x ∈ l /\ (freq b < freq x)%nat) ->
  (n <= length pool)%nat ->
  b ∉ take n l.
Proof.
  intros Hs Hnd Hpool Hlen Hb.
  assert (Hsub : b :: pool ⊆+ take n l).
  { apply NoDup_submseteq.
    - apply NoDup_cons. split; [| exact Hnd].
      intros Hin. destruct (Hpool b Hin) as [_ Hlt]. lia.
    - intros x Hx. apply elem_of_cons in Hx as [-> | Hx]; [exact Hb |].
      destruct (Hpool x Hx) as [Hin Hlt].
      apply (take_sorted_upward freq l n x b); assumption. }
  apply submseteq_length in Hsub. cbn [length] in Hsub.
  rewrite length_take in Hsub. lia.
Qed.

Lemma no_rarer_than_elem (corpus : list string) (w x : string) :
  x ∈ no_rarer_than corpus w
  <-> x ∈ corpus /\ (frequency corpus w <= frequency corpus x)%nat.
Proof.
  unfold no_rarer_than, distinct_tokens.
  rewrite list_elem_of_In, filter_In, <- list_elem_of_In, elem_of_remove_dups,
    Nat.leb_le. reflexivity.
Qed.

Lemma more_frequent_than_elem (corpus : list string) (w x : string) :
  x ∈ more_frequent_than corpus w
  <-> x ∈ corpus /\ (frequency corpus w < frequency corpus x)%nat.
Proof.
  unfold more_frequent_than, distinct_tokens.
  rewrite list_elem_of_In, filter_In, <- list_elem_of_In, elem_of_remove_dups,
    Nat.ltb_lt. reflexivity.
Qed.

Lemma filter_NoDup (f : string -> bool) (l : list string) :
  NoDup l -> NoDup (List.filter f l).
Proof.
  induction 1 as [| x l Hx Hl IH]; cbn [List.filter]; [constructor |].
  destruct (f x); [| exact IH]. constructor; [| exact IH].
  intros Hin. apply Hx.
  apply list_elem_of_In in Hin. apply filter_In in Hin as [Hin _].
  apply list_elem_of_In. exact Hin.
Qed.

Lemma more_frequent_than_NoDup (corpus : list string) (w : string) :
  NoDup (more_frequent_than corpus w).
Proof.
  unfold more_frequent_than, distinct_tokens.
  apply filter_NoDup, NoDup_remove_dups.
Qed.

Lemma drop_train (lines : list string) :
  drop 5 (train lines)
  = take 507 (rank (frequency (flat_map words lines))
                (first_seen [] (flat_map words lines))).
Proof. rewrite train_unfold. reflexivity. Qed.

(** A token of the vocabulary that is not a special token has an id from
    5 on. *)
Lemma token_to_id_corpus (rest : list string) (w : string) :
  w ∉ special_tokens -> w ∈ rest ->
  exists i, (5 <= i)%nat /\ token_to_id (special_tokens ++ rest) w = Some i.
Proof.
  intros Hs Hin. unfold token_to_id.
  destruct (list_find (eq w) (special_tokens ++ rest)) as [[i x] |] eqn:E.
  - exists i. split; [| reflexivity].
    apply list_find_Some in E as (Hl & <- & _).
    destruct (decide (i < 5)%nat) as [Hlt | Hge]; [| lia].
    exfalso. apply Hs.
    rewrite lookup_app_l in Hl by exact Hlt.
    exact (list_elem_of_lookup_2 _ _ _ Hl).
  - exfalso. apply list_find_None in E. rewrite Forall_forall in E.
    apply (E w); [apply elem_of_app; right; exact Hin | reflexivity].
Qed.

End VocabularyFacts.

(** C9.  Run with the budget 512 and the five special tokens of
    [tokenise_remi.py], the vocabulary builder gives [[PAD]], [[CLS]],
    [[SEP]], [[MASK]], [[UNK]] the ids 0 to 4 in that order and hands out
    ids below 512 only; a corpus token that is kept brings along every
    more frequent corpus token, so that when the budget is exhausted it is
    the rarer tokens that are left out, and a token left out takes the id
    of [[UNK]] at use time.  The vocabulary holds the five specials and
    then corpus tokens only, each once, by descending frequency, as many
    as the budget allows: 512 entries, or five more than the corpus has
    distinct tokens when that is less.  A corpus token with at most 507
    distinct corpus tokens no rarer than it, itself counted, is retained,
    with an id from 5 to 511 unless it is a special token; a token with
    at least 507 distinct corpus tokens more frequent than it is left out
    and takes the id of [[UNK]]. *)
Theorem C9_vocabulary_builder (lines : list string) :
  (forall i tok, Vocabulary.special_tokens !! i = Some tok ->
     Vocabulary.token_to_id (Vocabulary.train lines) tok = Some i)
  /\ Vocabulary.token_to_id (Vocabulary.train lines) "[PAD]" = Some 0%nat
  /\ Vocabulary.token_to_id (Vocabulary.train lines) "[CLS]" = Some 1%nat
  /\ Vocabulary.token_to_id (Vocabulary.train lines) "[SEP]" = Some 2%nat
  /\ Vocabulary.token_to_id (Vocabulary.train lines) "[MASK]" = Some 3%nat
  /\ Vocabulary.token_to_id (Vocabulary.train lines) "[UNK]" = Some 4%nat
  /\ (length (Vocabulary.train lines) <= 512)%nat
  /\ (forall w i, Vocabulary.encode (Vocabulary.train lines) w = Some i -> (i < 512)%nat)
  /\ (forall a b,
        (Vocabulary.frequency (flat_map Vocabulary.words lines) b
         < Vocabulary.frequency (flat_map Vocabulary.words lines) a)%nat ->
        b ∉ Vocabulary.special_tokens ->
        b ∈ Vocabulary.train lines -> a ∈ Vocabulary.train lines)
  /\ (forall w, w ∉ Vocabulary.train lines ->
        Vocabulary.encode (Vocabulary.train lines) w = Some 4%nat)
  /\ length (Vocabulary.train lines)
     = Nat.min 512 (5 + length (distinct_tokens (flat_map Vocabulary.words lines)))
  /\ take 5 (Vocabulary.train lines) = Vocabulary.special_tokens
  /\ NoDup (drop 5 (Vocabulary.train lines))
  /\ (forall w, w ∈ drop 5 (Vocabulary.train lines) ->
        (0 < Vocabulary.frequency (flat_map Vocabulary.words lines) w)%nat)
  /\ (forall i j a b, (5 <= i)%nat -> (i < j)%nat ->
        Vocabulary.train lines !! i = Some a ->
        Vocabulary.train lines !! j = Some b ->
        (Vocabulary.frequency (flat_map Vocabulary.words lines) b
         <= Vocabulary.frequency (flat_map Vocabulary.words lines) a)%nat)
  /\ (forall a,
        (0 < Vocabulary.frequency (flat_map Vocabulary.words lines) a)%nat ->
        (length (no_rarer_than (flat_map Vocabulary.words lines) a) <= 507)%nat ->
        a ∈ drop 5 (Vocabulary.train lines)
        /\ (a ∉ Vocabulary.special_tokens ->
            exists i, (5 <= i < 512)%nat
                      /\ Vocabulary.encode (Vocabulary.train lines) a = Some i))
  /\ (forall b,
        b ∉ Vocabulary.special_tokens ->
        (507 <= length (more_frequent_than (flat_map Vocabulary.words lines) b))%nat ->
        (b ∉ Vocabulary.train lines)
        /\ Vocabulary.encode (Vocabulary.train lines) b = Some 4%nat).
Proof.
  assert (Hid : forall i tok, Vocabulary.special_tokens !! i = Some tok ->
                  Vocabulary.token_to_id (Vocabulary.train lines) tok = Some i).
  { intros i tok H. rewrite VocabularyFacts.train_unfold.
    apply VocabularyFacts.special_ids. exact H. }
  assert (Hlen : (length (Vocabulary.train lines) <= 512)%nat).
  { unfold Vocabulary.train, Vocabulary.train_with, Vocabulary.vocab_size.
    rewrite length_take. apply Nat.le_min_l. }
  assert (Hunk : forall w, w ∉ Vocabulary.train lines ->
                   Vocabulary.encode (Vocabulary.train lines) w = Some 4%nat).
  { intros w Hw. unfold Vocabulary.encode.
    rewrite (VocabularyFacts.token_to_id_None _ _ Hw).
    exact (Hid 4%nat _ eq_refl). }
  assert (Hbound : forall w i,
            Vocabulary.encode (Vocabulary.train lines) w = Some i -> (i < 512)%nat).
  { intros w i H. unfold Vocabulary.encode in H.
    destruct (Vocabulary.token_to_id (Vocabulary.train lines) w) as [j |] eqn:E.
    + injection H as <-. apply VocabularyFacts.token_to_id_bound in E. lia.
    + apply VocabularyFacts.token_to_id_bound in H. lia. }
  split; [exact Hid |].
  split; [exact (Hid 0%nat _ eq_refl) |]. split; [exact (Hid 1%nat _ eq_refl) |].
  split; [exact (Hid 2%nat _ eq_refl) |]. split; [exact (Hid 3%nat _ eq_refl) |].
  split; [exact (Hid 4%nat _ eq_refl) |]. split; [exact Hlen |].
  split; [exact Hbound |].
  split.
  { intros a b Hlt Hb. rewrite VocabularyFacts.train_unfold, !elem_of_app.
    intros [Hin | Hin]; [contradiction |]. right.
    apply (VocabularyFacts.take_sorted_upward
             (Vocabulary.frequency (flat_map Vocabulary.words lines)) _ _ a b);
      [apply VocabularyFacts.rank_sorted | exact Hin | | exact Hlt].
    apply VocabularyFacts.frequent_in_corpus. lia. }
  split; [exact Hunk |].
  set (corpus := flat_map Vocabulary.words lines) in *.
  set (ranked := Vocabulary.rank (Vocabulary.frequency corpus)
                   (Vocabulary.first_seen [] corpus)).
  assert (Hdrop : drop 5 (Vocabulary.train lines) = take 507 ranked)
    by apply VocabularyFacts.drop_train.
  assert (Htrain : Vocabulary.train lines
                   = Vocabulary.special_tokens ++ take 507 ranked)
    by apply VocabularyFacts.train_unfold.
  split.
  { unfold Vocabulary.train, Vocabulary.train_with, Vocabulary.vocab_size,
      distinct_tokens.
    fold corpus. fold ranked.
    rewrite length_take, length_app. unfold ranked.
    rewrite VocabularyFacts.ranked_length. reflexivity. }
  split; [rewrite Htrain; reflexivity |].
  split.
  { rewrite Hdrop.
    eapply sublist_NoDup; [apply VocabularyFacts.ranked_NoDup | apply sublist_take]. }
  split.
  { intros w Hw. rewrite Hdrop in Hw. apply subseteq_take in Hw.
    apply VocabularyFacts.in_corpus_frequency, VocabularyFacts.ranked_elem.
    exact Hw. }
  split.
  { intros i j a b Hi Hij Ha Hb.
    rewrite Htrain in Ha, Hb.
    rewrite lookup_app_r in Ha by (cbn; lia).
    rewrite lookup_app_r in Hb by (cbn; lia).
    apply lookup_take_Some in Ha as [Ha _]. apply lookup_take_Some in Hb as [Hb _].
    apply (VocabularyFacts.sorted_lookup (Vocabulary.frequency corpus) ranked
             (i - length Vocabulary.special_tokens)
             (j - length Vocabulary.special_tokens) a b);
      [apply VocabularyFacts.rank_sorted | cbn; lia | exact Ha | exact Hb]. }
  split.
  { intros a Hfreq Hcount.
    assert (Hin : a ∈ take 507 ranked).
    { apply (VocabularyFacts.take_keeps_frequent (Vocabulary.frequency corpus)
               ranked (no_rarer_than corpus a)).
      - apply VocabularyFacts.rank_sorted.
      - apply VocabularyFacts.ranked_NoDup.
      - apply VocabularyFacts.ranked_elem, VocabularyFacts.in_corpus_frequency.
        exact Hfreq.
      - intros x Hx Hle. apply VocabularyFacts.no_rarer_than_elem.
        split; [apply VocabularyFacts.ranked_elem; exact Hx | exact Hle].
      - exact Hcount. }
    split; [rewrite Hdrop; exact Hin |].
    intros Hs.
    destruct (VocabularyFacts.token_to_id_corpus (take 507 ranked) a Hs Hin)
      as (i & Hi & Hid').
    rewrite <- Htrain in Hid'.
    assert (He : Vocabulary.encode (Vocabulary.train lines) a = Some i)
      by (unfold Vocabulary.encode; rewrite Hid'; reflexivity).
    exists i. split; [| exact He].
    split; [exact Hi | exact (Hbound a i He)]. }
  intros b Hs Hcount.
  assert (Hout : b ∉ Vocabulary.train lines).
  { rewrite Htrain, elem_of_app. intros [Hin | Hin]; [contradiction |].
    revert Hin.
    apply (VocabularyFacts.take_drops_rare (Vocabulary.frequency corpus)
             ranked (more_frequent_than corpus b)).
    - apply VocabularyFacts.rank_sorted.
    - apply VocabularyFacts.more_frequent_than_NoDup.
    - intros x Hx. apply VocabularyFacts.more_frequent_than_elem in Hx as [Hx Hlt].
      split; [apply VocabularyFacts.ranked_elem; exact Hx | exact Hlt].
    - exact Hcount. }
  split; [exact Hout | exact (Hunk b Hout)].
Qed.

Lemma C9_vocabulary_builder_witness :
  (0 < Vocabulary.frequency (flat_map Vocabulary.words crowded_lines) "3")%nat
  /\ (length (no_rarer_than (flat_map Vocabulary.words crowded_lines) "3")
      <= 507)%nat
  /\ "3" ∈ drop 5 (Vocabulary.train crowded_lines)
  /\ (Vocabulary.frequency (flat_map Vocabulary.words crowded_lines) "Rest"
      < Vocabulary.frequency (flat_map Vocabulary.words crowded_lines) "3")%nat
  /\ ("Rest" ∉ Vocabulary.special_tokens)
  /\ (507 <= length (more_frequent_than (flat_map Vocabulary.words crowded_lines) "Rest"))%nat
  /\ ("Rest" ∉ Vocabulary.train crowded_lines)
  /\ Vocabulary.encode (Vocabulary.train crowded_lines) "Rest" = Some 4%nat.
Proof.
  assert (Hf : (0 < Vocabulary.frequency (flat_map Vocabulary.words crowded_lines)
                      "3")%nat)
    by (apply Nat.ltb_lt; vm_compute; reflexivity).
  assert (Hn : (length (no_rarer_than (flat_map Vocabulary.words crowded_lines)
                          "3") <= 507)%nat)
    by (apply Nat.leb_le; vm_compute; reflexivity).
  assert (Hlt : (Vocabulary.frequency (flat_map Vocabulary.words crowded_lines) "Rest"
                 < Vocabulary.frequency (flat_map Vocabulary.words crowded_lines)
                     "3")%nat)
    by (apply Nat.ltb_lt; vm_compute; reflexivity).
  assert (Hs : "Rest" ∉ Vocabulary.special_tokens) by decide_by_vm.
  assert (Hm : (507 <= length (more_frequent_than
                                 (flat_map Vocabulary.words crowded_lines) "Rest"))%nat)
    by (apply Nat.leb_le; vm_compute; reflexivity).
  destruct (C9_vocabulary_builder crowded_lines)
    as (_ & _ & _ & _ & _ & _ & _ & _ & _ & _ & _ & _ & _ & _ & _ & Hkeep & Hdrop).
  split; [exact Hf |]. split; [exact Hn |].
  split; [exact (proj1 (Hkeep "3" Hf Hn)) |].
  split; [exact Hlt |]. split; [exact Hs |]. split; [exact Hm |].
  exact (Hdrop "Rest" Hs Hm).
Defined.

(** The crowded corpus has 508 distinct tokens and fills the vocabulary
    of 512 entries. *)
Example crowded_vocabulary :
  length (distinct_tokens (flat_map Vocabulary.words crowded_lines)) = 508%nat
  /\ length (Vocabulary.train crowded_lines) = 512%nat.
Proof. split; vm_compute; reflexivity. Qed.

(** With a budget of seven the two most frequent tokens of the sample
    corpus are kept, in first-seen order on their tie, and the rarer ones
    take the id of the unknown token. *)
Example small_budget_exhausted :
  Vocabulary.train_with 7 Vocabulary.special_tokens sample_lines
  = ["[PAD]"; "[CLS]"; "[SEP]"; "[MASK]"; "[UNK]"; "Bar"; "b"]
  /\ Vocabulary.encode
       (Vocabulary.train_with 7 Vocabulary.special_tokens sample_lines) "b" = Some 6%nat
  /\ Vocabulary.encode
       (Vocabulary.train_with 7 Vocabulary.special_tokens sample_lines) "a" = Some 4%nat.
Proof. repeat split; reflexivity. Qed.

(** * Further properties of the code *)

(** ** Quantizer *)

Lemma py_int_monotone (q1 q2 : Q) : (q1 <= q2)%Q -> py_int q1 <= py_int q2.
Proof.
  intros H. destruct (Qlt_le_dec q1 0) as [Hn1 | Hp1].
  - destruct (Qlt_le_dec 0 q2) as [Hp2 | Hn2].
    + rewrite (py_int_nonpos q1) by (apply Qlt_le_weak; exact Hn1).
      rewrite (py_int_nonneg q2) by (apply Qlt_le_weak; exact Hp2).
      transitivity 0.
      * change 0 with (Qceiling 0). apply Qceiling_resp_le, Qlt_le_weak. exact Hn1.
      * change 0 with (Qfloor 0). apply Qfloor_resp_le, Qlt_le_weak. exact Hp2.
    + rewrite (py_int_nonpos q1) by (apply Qlt_le_weak; exact Hn1).
      rewrite (py_int_nonpos q2) by exact Hn2.
      apply Qceiling_resp_le. exact H.
  - rewrite (py_int_nonneg q1) by exact Hp1.
    rewrite (py_int_nonneg q2) by (eapply Qle_trans; [exact Hp1 | exact H]).
    apply Qfloor_resp_le. exact H.
Qed.

Lemma positive_step (quarter_length : Q) (steps_per_quarter : Z) :
  (0 < quarter_length)%Q -> 0 < steps_per_quarter ->
  (0 < quarter_length / inject_Z steps_per_quarter)%Q.
Proof.
  intros Hq Hs. apply Qlt_shift_div_l; [unfold Qlt; cbn; lia | ring_simplify; exact Hq].
Qed.

(** X1.  For a positive quarter length and a positive number of steps,
    [quantize_position] is monotone in the offset, negative offsets
    included: a later event never gets a smaller index. *)
Theorem quantize_position_monotone (offset1 offset2 quarter_length : Q)
    (steps_per_quarter n1 n2 : Z) :
  (0 < quarter_length)%Q -> 0 < steps_per_quarter -> (offset1 <= offset2)%Q ->
  quantize_position offset1 quarter_length steps_per_quarter = inr n1 ->
  quantize_position offset2 quarter_length steps_per_quarter = inr n2 ->
  n1 <= n2.
Proof.
  intros Hq Hs Ho H1 H2.
  assert (Hq0 : ~ (quarter_length == 0)%Q) by (intros E; rewrite E in Hq; discriminate).
  rewrite quantize_position_ok in H1, H2 by (assumption || lia).
  injection H1 as <-. injection H2 as <-.
  apply py_int_monotone.
  apply Qmult_le_compat_r; [exact Ho |].
  apply Qlt_le_weak, Qinv_lt_0_compat, positive_step; assumption.
Qed.

Lemma quantize_position_monotone_witness :
  (0 < 1)%Q /\ 0 < 4 /\ (-3 # 8 <= 9 # 8)%Q
  /\ quantize_position (-3 # 8) 1 4 = inr (-1)
  /\ quantize_position (9 # 8) 1 4 = inr 4
  /\ -1 <= 4.
Proof.
  split; [reflexivity |]. split; [reflexivity |]. split; [discriminate |].
  split; [reflexivity |]. split; [reflexivity |].
  apply (quantize_position_monotone (-3 # 8) (9 # 8) 1 4 (-1) 4);
    (reflexivity || discriminate).
Defined.

Lemma quantize_position_cell_exact (offset quarter_length : Q) (steps_per_quarter : Z) :
  (0 <= offset)%Q -> (0 < quarter_length)%Q -> 0 < steps_per_quarter ->
  exists n : Z,
    quantize_position offset quarter_length steps_per_quarter = inr n
    /\ 0 <= n
    /\ (inject_Z n * (quarter_length / inject_Z steps_per_quarter) <= offset)%Q
    /\ (offset < inject_Z (n + 1) * (quarter_length / inject_Z steps_per_quarter))%Q.
Proof.
  intros Ho Hq Hs.
  pose proof (positive_step quarter_length steps_per_quarter Hq Hs) as Hstep.
  set (step := (quarter_length / inject_Z steps_per_quarter)%Q) in *.
  assert (Hstep0 : ~ (step == 0)%Q) by (intros E; rewrite E in Hstep; discriminate).
  assert (Hquot : (0 <= offset / step)%Q).
  { apply Qle_shift_div_l; [exact Hstep | ring_simplify; exact Ho]. }
  exists (Qfloor (offset / step)).
  split; [apply quantize_position_floor; assumption |].
  split; [change 0 with (Qfloor 0); apply Qfloor_resp_le; exact Hquot |].
  split.
  - apply (Qmult_le_r _ _ (/ step)); [apply Qinv_lt_0_compat; exact Hstep |].
    setoid_replace (inject_Z (Qfloor (offset / step)) * step * / step)%Q
      with (inject_Z (Qfloor (offset / step))) using relation Qeq
      by (field; exact Hstep0).
    apply Qfloor_le.
  - apply (Qmult_lt_r _ _ (/ step)); [apply Qinv_lt_0_compat; exact Hstep |].
    setoid_replace (inject_Z (Qfloor (offset / step) + 1) * step * / step)%Q
      with (inject_Z (Qfloor (offset / step) + 1)) using relation Qeq
      by (field; exact Hstep0).
    apply Qlt_floor.
Qed.

(** X2.  With its default quarter length 1.0 and its default 4 steps
    per quarter, [quantize_position] returns, for every non-negative
    offset that is a finite float below 2^1022, the index of the
    sixteenth-note cell holding the offset: [n = floor(4 * offset)], with
    [0 <= n] and [n / 4 <= offset < (n + 1) / 4]. *)
Theorem quantize_position_cell (offset : Q) :
  binary64 offset -> (0 <= offset)%Q -> (offset < inject_Z (2 ^ 1022))%Q ->
  exists n : Z,
    quantize_position offset default_quarter_length default_steps_per_quarter = inr n
    /\ n = Qfloor (4 * offset)
    /\ 0 <= n
    /\ (inject_Z n * (1 # 4) <= offset)%Q
    /\ (offset < inject_Z (n + 1) * (1 # 4))%Q.
Proof.
  intros _ Ho _.
  destruct (quantize_position_cell_exact offset default_quarter_length
              default_steps_per_quarter Ho eq_refl eq_refl)
    as (n & Hn & H0 & Hlo & Hhi).
  exists n. split; [exact Hn |].
  rewrite (quantize_position_default offset Ho) in Hn. injection Hn as Hn.
  split; [symmetry; exact Hn |]. split; [exact H0 |].
  assert (E : (default_quarter_length / inject_Z default_steps_per_quarter == 1 # 4)%Q)
    by reflexivity.
  rewrite E in Hlo, Hhi. split; assumption.
Qed.

Lemma quantize_position_cell_witness :
  binary64 (9 # 8) /\ (0 <= 9 # 8)%Q /\ (9 # 8 < inject_Z (2 ^ 1022))%Q
  /\ exists n : Z,
       quantize_position (9 # 8) default_quarter_length default_steps_per_quarter = inr n
       /\ n = Qfloor (4 * (9 # 8))
       /\ 0 <= n
       /\ (inject_Z n * (1 # 4) <= 9 # 8)%Q
       /\ (9 # 8 < inject_Z (n + 1) * (1 # 4))%Q.
Proof.
  assert (Hf : binary64 (9 # 8)).
  { exists 9, (-3). split; [reflexivity |]. split; [split; discriminate | reflexivity]. }
  assert (Hb : (9 # 8 < inject_Z (2 ^ 1022))%Q) by (vm_compute; reflexivity).
  split; [exact Hf |]. split; [discriminate |]. split; [exact Hb |].
  exact (quantize_position_cell (9 # 8) Hf ltac:(discriminate) Hb).
Defined.

(** X4.  [quantize_duration] saturates at both ends of the table: every
    duration of a whole note or more gets [Duration_1], and every duration
    from zero (a grace note) up to a thirty-second triplet gets
    [Duration_1/32t]. *)
Theorem quantize_duration_saturates (duration : Q) :
  ((4 <= duration)%Q -> quantize_duration duration = inr "Duration_1")
  /\ ((0 <= duration)%Q -> (duration <= 1 # 12)%Q ->
      quantize_duration duration = inr "Duration_1/32t").
Proof.
  destruct (quantize_duration_nearest duration) as (key & label & Hin & Hq & Hmin).
  rewrite Hq. split; [intros Hd | intros _ Hd].
  - assert (H4 : (4 <= key)%Q).
    { assert (Hk : (Qabs (key - duration) <= Qabs (4 - duration))%Q)
        by (apply Hmin; unfold dict_keys, DURATION_LABELS; cbn [map fst]; elem_solve).
      rewrite (Qabs_neg (4 - duration)) in Hk by lra.
      pose proof (Qle_Qabs (- (key - duration))) as Ha.
      rewrite Qabs_opp in Ha. lra. }
    unfold DURATION_LABELS in Hin. elem_cases; first [reflexivity | lra].
  - assert (H12 : (key <= 1 # 12)%Q).
    { assert (Hk : (Qabs (key - duration) <= Qabs ((1 # 12) - duration))%Q)
        by (apply Hmin; unfold dict_keys, DURATION_LABELS; cbn [map fst]; elem_solve).
      rewrite (Qabs_pos ((1 # 12) - duration)) in Hk by lra.
      pose proof (Qle_Qabs (key - duration)) as Ha. lra. }
    unfold DURATION_LABELS in Hin. elem_cases; first [reflexivity | lra].
Qed.

Lemma quantize_duration_saturates_witness :
  (4 <= 6)%Q /\ quantize_duration 6 = inr "Duration_1"
  /\ (0 <= 0)%Q /\ (0 <= 1 # 12)%Q /\ quantize_duration 0 = inr "Duration_1/32t".
Proof.
  split; [discriminate |].
  split; [apply (proj1 (quantize_duration_saturates 6)); discriminate |].
  split; [discriminate |]. split; [discriminate |].
  apply (proj2 (quantize_duration_saturates 0)); discriminate.
Defined.

(** ** Event encoder *)

(** The encoder only ever appends to the tokens it is given. *)
Lemma encode_element_acc (steps_per_quarter : Z) (tokens : list string) (el : element) :
  encode_element steps_per_quarter tokens el
  = encode_element steps_per_quarter [] el ≫= (fun t => mret (tokens ++ t)).
Proof.
  unfold encode_element.
  destruct (quantize_position _ _ _) as [e | pos]; [reflexivity |].
  cbn [mbind result_bind].
  destruct el as [o midi ql arts | o ql | o]; cbn [mbind result_bind mret result_ret app].
  - destruct (quantize_duration ql) as [e | d]; [reflexivity |].
    cbn [mbind result_bind].
    rewrite !(for_each_append_tokens (String.append "Articulation_")).
    cbn [mbind result_bind mret result_ret app]. rewrite <- !app_assoc. reflexivity.
  - destruct (quantize_duration ql) as [e | d]; [reflexivity |].
    cbn [mbind result_bind mret result_ret app]. rewrite <- !app_assoc. reflexivity.
  - reflexivity.
Qed.

Lemma for_each_acc {A : Type} (body : list string -> A -> result (list string)) :
  (forall tokens x, body tokens x = body [] x ≫= (fun t => mret (tokens ++ t))) ->
  forall l tokens,
    for_each l body tokens = for_each l body [] ≫= (fun t => mret (tokens ++ t)).
Proof.
  intros Hbody l; induction l as [| x l IH]; intros tokens; cbn [for_each].
  - cbn. rewrite app_nil_r. reflexivity.
  - rewrite (Hbody tokens x). destruct (body [] x) as [e | t1]; [reflexivity |].
    cbn [mbind result_bind mret result_ret].
    rewrite (IH (tokens ++ t1)), (IH t1).
    destruct (for_each l body []) as [e | t2]; [reflexivity |].
    cbn. rewrite app_assoc. reflexivity.
Qed.

Lemma encode_measure_acc (steps_per_quarter : Z) (tokens : list string) (m : measure) :
  encode_measure steps_per_quarter tokens m
  = encode_measure steps_per_quarter [] m ≫= (fun t => mret (tokens ++ t)).
Proof.
  unfold encode_measure.
  rewrite (for_each_acc _ (encode_element_acc steps_per_quarter) m (tokens ++ ["Bar"])).
  rewrite (for_each_acc _ (encode_element_acc steps_per_quarter) m ([] ++ ["Bar"])).
  destruct (for_each m (encode_element steps_per_quarter) []) as [e | t]; [reflexivity |].
  cbn. rewrite <- app_assoc. reflexivity.
Qed.

Lemma encode_part_acc (steps_per_quarter : Z) (tokens : list string) (p : part) :
  encode_part steps_per_quarter tokens p
  = encode_part steps_per_quarter [] p ≫= (fun t => mret (tokens ++ t)).
Proof.
  unfold encode_part. apply for_each_acc. apply encode_measure_acc.
Qed.

Lemma encode_score_concat (steps_per_quarter : Z) (s1 s2 : score) :
  encode_score steps_per_quarter (s1 ++ s2)
  = t1 ← encode_score steps_per_quarter s1;
    t2 ← encode_score steps_per_quarter s2;
    mret (t1 ++ t2).
Proof.
  unfold encode_score. rewrite for_each_app.
  destruct (for_each s1 (encode_part steps_per_quarter) []) as [e | t1]; [reflexivity |].
  cbn [mbind result_bind].
  apply (for_each_acc _ (encode_part_acc steps_per_quarter)).
Qed.

Lemma encode_score_by_measures (steps_per_quarter : Z) (s : score) :
  encode_score steps_per_quarter s
  = for_each (measures_of s) (encode_measure steps_per_quarter) [].
Proof.
  unfold measures_of.
  assert (Hone : forall p, encode_score steps_per_quarter [p]
                           = for_each p (encode_measure steps_per_quarter) []).
  { intros p. unfold encode_score, encode_part. cbn [for_each].
    destruct (for_each p (encode_measure steps_per_quarter) []); reflexivity. }
  induction s as [| p s IH]; [reflexivity |].
  change (p :: s) with ([p] ++ s). rewrite encode_score_concat, IH, !Hone.
  cbn [concat app]. rewrite for_each_app.
  destruct (for_each p (encode_measure steps_per_quarter) []) as [e | t1]; [reflexivity |].
  cbn [mbind result_bind].
  symmetry. apply (for_each_acc _ (encode_measure_acc steps_per_quarter)).
Qed.

(** X5.  The encoder carries nothing from one part to the next but the
    tokens emitted so far: the tokens of two scores put end to end are the
    tokens of the first followed by the tokens of the second, and the
    whole raises when either raises. *)
Theorem encode_score_app (steps_per_quarter : Z) (s1 s2 : score) :
  encode_score steps_per_quarter (s1 ++ s2)
  = t1 ← encode_score steps_per_quarter s1;
    t2 ← encode_score steps_per_quarter s2;
    mret (t1 ++ t2).
Proof. apply encode_score_concat. Qed.

(** X6.  Part boundaries leave no trace in the output: a score is
    encoded exactly as the single part made of all its measures in order. *)
Theorem encode_score_flattens_parts (steps_per_quarter : Z) (s : score) :
  encode_score steps_per_quarter s = encode_score steps_per_quarter [measures_of s].
Proof.
  rewrite !encode_score_by_measures. unfold measures_of. cbn [concat].
  rewrite app_nil_r. reflexivity.
Qed.

Lemma for_each_additive {A : Type} (mu : list string -> nat)
    (body : list string -> A -> result (list string)) (cost : A -> nat) :
  (forall tokens x tokens', body tokens x = inr tokens' ->
     mu tokens' = (mu tokens + cost x)%nat) ->
  forall l tokens tokens', for_each l body tokens = inr tokens' ->
     mu tokens' = (mu tokens + sum_list (map cost l))%nat.
Proof.
  intros Hbody l; induction l as [| x l IH]; intros tokens tokens' H; cbn in H.
  - injection H as <-. cbn. lia.
  - apply result_bind_inr in H as (t1 & H1 & H2).
    rewrite (IH _ _ H2), (Hbody _ _ _ H1). cbn. lia.
Qed.

Lemma sum_list_zero {A : Type} (l : list A) : sum_list (map (fun _ => 0%nat) l) = 0%nat.
Proof. induction l as [| x l IH]; [reflexivity | exact IH]. Qed.

Lemma sum_list_ones {A : Type} (l : list A) : sum_list (map (fun _ => 1%nat) l) = length l.
Proof. induction l as [| x l IH]; [reflexivity | cbn; rewrite IH; reflexivity]. Qed.

Lemma bar_not_duration_label : "Bar" ∉ grammar_duration_labels.
Proof. decide_by_vm. Qed.

(** No token appended for an element is [Bar]. *)
Lemma encode_element_bars (steps_per_quarter : Z) (tokens tokens' : list string)
    (el : element) :
  encode_element steps_per_quarter tokens el = inr tokens' ->
  bars tokens' = (bars tokens + 0)%nat.
Proof.
  intros H. destruct (Z.eq_dec steps_per_quarter 0) as [-> | Hs].
  { rewrite encode_element_zero_steps in H. discriminate. }
  destruct (encode_element_spec steps_per_quarter tokens el Hs) as (pos & _ & Hel).
  assert (Hnone : forall new, "Bar" ∉ new -> bars (tokens ++ new) = (bars tokens + 0)%nat).
  { intros new Hn. unfold bars. rewrite count_occ_app. f_equal.
    apply count_occ_not_In. rewrite <- list_elem_of_In. exact Hn. }
  destruct el as [o midi ql arts | o ql | o].
  - destruct Hel as (d & Hd & Hel). rewrite Hel in H. injection H as <-.
    apply Hnone. rewrite !elem_of_cons, list_elem_of_fmap.
    intros [E | [E | [E | (c & E & _)]]]; try discriminate E.
    subst d. apply bar_not_duration_label.
    exact (quantize_duration_in_grammar ql _ Hd).
  - destruct Hel as (d & Hd & Hel). rewrite Hel in H. injection H as <-.
    apply Hnone. rewrite !elem_of_cons, elem_of_nil.
    intros [E | [E | [E | []]]]; try discriminate E.
    subst d. apply bar_not_duration_label.
    exact (quantize_duration_in_grammar ql _ Hd).
  - rewrite Hel in H. injection H as <-.
    apply Hnone. rewrite !elem_of_cons, elem_of_nil.
    intros [E | []]. discriminate E.
Qed.

Lemma encode_score_bars (steps_per_quarter : Z) (s : score) (tokens : list string) :
  encode_score steps_per_quarter s = inr tokens ->
  bars tokens = length (measures_of s).
Proof.
  rewrite encode_score_by_measures. intros H.
  assert (Hm : forall t (m : measure) t',
             encode_measure steps_per_quarter t m = inr t' ->
             bars t' = (bars t + 1)%nat).
  { intros t m t' Hm. unfold encode_measure in Hm.
    rewrite (for_each_additive bars (encode_element steps_per_quarter) (fun _ => 0%nat)
               (fun a x b => encode_element_bars steps_per_quarter a b x) m _ t' Hm).
    rewrite sum_list_zero. unfold bars. rewrite count_occ_app. cbn. lia. }
  rewrite (for_each_additive bars (encode_measure steps_per_quarter) (fun _ => 1%nat)
             Hm (measures_of s) [] tokens H).
  rewrite sum_list_ones. reflexivity.
Qed.

(** X7.  The output holds exactly one [Bar] per measure of the score,
    empty measures included: no other token the encoder emits is [Bar]. *)
Theorem bars_count_measures (steps_per_quarter : Z) (s : score) (tokens : list string) :
  encode_score steps_per_quarter s = inr tokens ->
  bars tokens = length (measures_of s).
Proof. apply encode_score_bars. Qed.

Lemma bars_count_measures_witness :
  encode_score 4 mixed_score = inr mixed_tokens
  /\ bars mixed_tokens = length (measures_of mixed_score).
Proof.
  split; [reflexivity |].
  apply (bars_count_measures 4 mixed_score). reflexivity.
Defined.

Lemma encode_element_remi (steps_per_quarter : Z) (tokens tokens' : list string)
    (el : element) :
  Forall remi_token tokens ->
  encode_element steps_per_quarter tokens el = inr tokens' ->
  Forall remi_token tokens'.
Proof.
  intros Ht H. destruct (Z.eq_dec steps_per_quarter 0) as [-> | Hs].
  { rewrite encode_element_zero_steps in H. discriminate. }
  destruct (encode_element_spec steps_per_quarter tokens el Hs) as (pos & _ & Hel).
  destruct el as [o midi ql arts | o ql | o].
  - destruct Hel as (d & Hd & Hel). rewrite Hel in H. injection H as <-.
    apply Forall_app; split; [exact Ht |].
    repeat (apply Forall_cons; split).
    + apply tok_position.
    + apply tok_pitch.
    + apply tok_duration. exact (quantize_duration_in_grammar ql d Hd).
    + apply Forall_fmap, Forall_forall. intros art _. apply tok_articulation.
  - destruct Hel as (d & Hd & Hel). rewrite Hel in H. injection H as <-.
    apply Forall_app; split; [exact Ht |].
    repeat (apply Forall_cons; split); [| | | constructor].
    + apply tok_position.
    + apply tok_rest.
    + apply tok_duration. exact (quantize_duration_in_grammar ql d Hd).
  - rewrite Hel in H. injection H as <-.
    apply Forall_app; split; [exact Ht |].
    apply Forall_cons; split; [apply tok_position | constructor].
Qed.

(** X8.  Every token of the output has one of the six forms of the token
    grammar: [Bar], [Position_<integer>], [Pitch_<integer>], one of the
    fourteen duration labels, [Rest], or [Articulation_<class>]. *)
Theorem encode_score_in_grammar (steps_per_quarter : Z) (s : score)
    (tokens : list string) :
  encode_score steps_per_quarter s = inr tokens -> Forall remi_token tokens.
Proof.
  unfold encode_score.
  apply (for_each_invariant (Forall remi_token)); [| constructor].
  intros t p t'. unfold encode_part.
  apply (for_each_invariant (Forall remi_token)).
  intros t1 m t1' Ht1. unfold encode_measure.
  apply (for_each_invariant (Forall remi_token)).
  - intros t2 el t2'. apply encode_element_remi.
  - apply Forall_app; split; [exact Ht1 |].
    apply Forall_cons; split; [apply tok_bar | constructor].
Qed.

Lemma encode_score_in_grammar_witness :
  encode_score 4 mixed_score = inr mixed_tokens /\ Forall remi_token mixed_tokens.
Proof.
  split; [reflexivity |].
  apply (encode_score_in_grammar 4 mixed_score). reflexivity.
Defined.

Lemma concat_nil_all_nil {A : Type} (ls : list (list A)) :
  concat ls = [] -> Forall (fun l => l = []) ls.
Proof.
  induction ls as [| l ls IH]; cbn; [constructor |].
  intros H. apply app_eq_nil in H as [-> H]. constructor; [reflexivity | exact (IH H)].
Qed.

(** X9.  A score without events, whatever its parts and however many
    empty measures they hold, is encoded as one [Bar] per measure and
    nothing else, for every [steps_per_quarter], zero included. *)
Theorem encode_score_without_events (steps_per_quarter : Z) (s : score) :
  events_of s = [] ->
  encode_score steps_per_quarter s = inr (replicate (length (measures_of s)) "Bar").
Proof.
  unfold events_of. intros H. apply concat_nil_all_nil in H.
  rewrite encode_score_by_measures.
  induction H as [| m ms -> _ IH]; [reflexivity |].
  cbn [for_each length replicate].
  change (encode_measure steps_per_quarter [] []) with (inr (B:=list string) (A:=exn) ["Bar"]).
  cbn [mbind result_bind].
  rewrite (for_each_acc _ (encode_measure_acc steps_per_quarter)), IH. reflexivity.
Qed.

Lemma encode_score_without_events_witness :
  events_of [[[]; []]; []; [[]]] = []
  /\ encode_score 0 [[[]; []]; []; [[]]]
     = inr (replicate (length (measures_of [[[]; []]; []; [[]]])) "Bar").
Proof.
  split; [reflexivity |].
  apply (encode_score_without_events 0 [[[]; []]; []; [[]]]). reflexivity.
Defined.

(** X10.  With [steps_per_quarter = 0] the encoder raises
    [ZeroDivisionError] as soon as the score has an event: the step
    [0 / 4] it divides the offset by is zero. *)
Theorem encode_score_zero_steps (s : score) :
  events_of s <> [] -> encode_score 0 s = inl ZeroDivisionError.
Proof.
  unfold events_of. rewrite encode_score_by_measures.
  generalize (@nil string) as tokens.
  induction (measures_of s) as [| m ms IH]; intros tokens H; [contradiction |].
  cbn [for_each]. destruct m as [| el m].
  - change (encode_measure 0 tokens []) with (inr (B:=list string) (A:=exn) (tokens ++ ["Bar"])).
    cbn [mbind result_bind]. apply IH. exact H.
  - reflexivity.
Qed.

Lemma encode_score_zero_steps_witness :
  events_of [[[]; [Rest 0 1]]] <> []
  /\ encode_score 0 [[[]; [Rest 0 1]]] = inl ZeroDivisionError.
Proof.
  split; [discriminate |].
  apply (encode_score_zero_steps [[[]; [Rest 0 1]]]). discriminate.
Defined.

(** ** Strings and paths *)

Lemma append_cons (c : ascii) (x y : string) : String c x +:+ y = String c (x +:+ y).
Proof. reflexivity. Qed.

Lemma append_nil (y : string) : "" +:+ y = y.
Proof. reflexivity. Qed.

Lemma split_on_cons (sep : ascii) (s : string) :
  exists w ws, split_on sep s = w :: ws.
Proof.
  destruct s as [| c s]; cbn; [eauto |].
  destruct (Ascii.eqb c sep); [eauto |]. destruct (split_on sep s); eauto.
Qed.

(** Joining the pieces of a split gives the string back. *)
Lemma concat_split_on (sep : ascii) (s : string) :
  String.concat (String sep "") (split_on sep s) = s.
Proof.
  induction s as [| c s IH]; [reflexivity |]. cbn [split_on].
  destruct (split_on_cons sep s) as (w & ws & E). rewrite E in *.
  destruct (Ascii.eqb c sep) eqn:Ec.
  - apply Ascii.eqb_eq in Ec as ->.
    change (String.concat (String sep "") ("" :: w :: ws))
      with ("" +:+ String sep "" +:+ String.concat (String sep "") (w :: ws)).
    rewrite IH. reflexivity.
  - destruct ws as [| w' ws].
    + cbn in *. rewrite IH. reflexivity.
    + change (String.concat (String sep "") (String c w :: w' :: ws))
        with (String c w +:+ String sep "" +:+ String.concat (String sep "") (w' :: ws)).
      change (String.concat (String sep "") (w :: w' :: ws))
        with (w +:+ String sep "" +:+ String.concat (String sep "") (w' :: ws)) in IH.
      rewrite append_cons, IH. reflexivity.
Qed.

Lemma split_on_plain (sep : ascii) (x : string) :
  mem_char sep x = false -> split_on sep x = [x].
Proof.
  induction x as [| c x IH]; [reflexivity |]. cbn [mem_char split_on].
  intros H. apply orb_false_elim in H as [Hc Hx].
  rewrite Ascii.eqb_sym, Hc, (IH Hx). reflexivity.
Qed.

Lemma split_on_append (sep : ascii) (x rest : string) :
  mem_char sep x = false ->
  split_on sep (x +:+ String sep rest) = x :: split_on sep rest.
Proof.
  induction x as [| c x IH]; intros H.
  - rewrite append_nil. cbn [split_on]. rewrite Ascii.eqb_refl. reflexivity.
  - cbn [mem_char] in H. apply orb_false_elim in H as [Hc Hx].
    rewrite append_cons. cbn [split_on]. rewrite Ascii.eqb_sym, Hc, (IH Hx). reflexivity.
Qed.

(** Splitting a join gives the pieces back, when there is at least one
    piece and no piece holds the separator. *)
Lemma split_on_concat (sep : ascii) (l : list string) :
  l <> [] -> Forall (fun x => mem_char sep x = false) l ->
  split_on sep (String.concat (String sep "") l) = l.
Proof.
  intros Hne Hl. induction Hl as [| x l Hx Hl IH]; [contradiction |].
  destruct l as [| y l].
  - cbn [String.concat]. apply split_on_plain. exact Hx.
  - change (String.concat (String sep "") (x :: y :: l))
      with (x +:+ String sep "" +:+ String.concat (String sep "") (y :: l)).
    change (String sep "" +:+ String.concat (String sep "") (y :: l))
      with (String sep (String.concat (String sep "") (y :: l))).
    rewrite split_on_append by exact Hx. rewrite IH by discriminate. reflexivity.
Qed.

Lemma mem_char_append (c : ascii) (a b : string) :
  mem_char c (a +:+ b) = mem_char c a || mem_char c b.
Proof.
  induction a as [| x a IH]; [reflexivity |].
  rewrite append_cons. cbn [mem_char]. rewrite IH, orb_assoc. reflexivity.
Qed.

Lemma pretty_N_char_space_free (x : N) : Ascii.eqb " " (pretty_N_char x) = false.
Proof. unfold pretty_N_char. repeat case_match; reflexivity. Qed.

Lemma pretty_N_go_space_free (x : N) (s : string) :
  space_free s -> space_free (pretty_N_go x s).
Proof.
  revert s. induction (N.lt_wf_0 x) as [x _ IH]; intros s Hs.
  destruct (decide (x = 0)%N) as [-> | Hx]; [rewrite pretty_N_go_0; exact Hs |].
  rewrite pretty_N_go_step by lia. apply IH; [apply N.div_lt; lia |].
  unfold space_free. cbn [mem_char]. rewrite pretty_N_char_space_free. exact Hs.
Qed.

Lemma pretty_Z_space_free (z : Z) : space_free (pretty z).
Proof.
  assert (HN : forall p : positive, space_free (pretty p)).
  { intros q. unfold pretty, pretty_positive, pretty, pretty_N.
    destruct (decide (N.pos q = 0%N)); [reflexivity |].
    apply pretty_N_go_space_free. reflexivity. }
  destruct z as [| q | q]; [reflexivity | apply HN |].
  unfold pretty, pretty_Z, space_free. rewrite mem_char_append. cbn [mem_char orb].
  apply HN.
Qed.

Lemma duration_labels_space_free (d : string) :
  d ∈ grammar_duration_labels -> space_free d.
Proof.
  unfold grammar_duration_labels; cbn [map]. intros H. elem_cases; reflexivity.
Qed.

Lemma for_each_invariant_on {A S : Type} (P : S -> Prop) (Q : A -> Prop)
    (body : S -> A -> result S) :
  (forall s x s', Q x -> P s -> body s x = inr s' -> P s') ->
  forall l s s', Forall Q l -> P s -> for_each l body s = inr s' -> P s'.
Proof.
  intros Hbody l; induction l as [| x l IH]; intros s s' Hl Hs H; cbn in H.
  - injection H as <-. exact Hs.
  - apply Forall_cons in Hl as [Hx Hl].
    apply result_bind_inr in H as (s1 & H1 & H2).
    exact (IH s1 s' Hl (Hbody s x s1 Hx Hs H1) H2).
Qed.

Lemma encode_element_space_free (steps_per_quarter : Z) (tokens tokens' : list string)
    (el : element) :
  Forall space_free (event_articulations el) ->
  Forall space_free tokens ->
  encode_element steps_per_quarter tokens el = inr tokens' ->
  Forall space_free tokens'.
Proof.
  intros Harts Ht H. destruct (Z.eq_dec steps_per_quarter 0) as [-> | Hs].
  { rewrite encode_element_zero_steps in H. discriminate. }
  assert (Hpre : forall (pre : string) (z : Z),
             space_free pre -> space_free (pre +:+ pretty z)).
  { intros pre z Hp. unfold space_free. rewrite mem_char_append, Hp.
    apply pretty_Z_space_free. }
  destruct (encode_element_spec steps_per_quarter tokens el Hs) as (pos & _ & Hel).
  destruct el as [o midi ql arts | o ql | o].
  - destruct Hel as (d & Hd & Hel). rewrite Hel in H. injection H as <-.
    apply Forall_app; split; [exact Ht |].
    repeat (apply Forall_cons; split).
    + apply Hpre. reflexivity.
    + apply Hpre. reflexivity.
    + apply duration_labels_space_free. exact (quantize_duration_in_grammar ql d Hd).
    + apply Forall_fmap. eapply Forall_impl; [exact Harts |].
      intros a Ha. unfold space_free, compose. rewrite mem_char_append. exact Ha.
  - destruct Hel as (d & Hd & Hel). rewrite Hel in H. injection H as <-.
    apply Forall_app; split; [exact Ht |].
    repeat (apply Forall_cons; split); [| | | constructor].
    + apply Hpre. reflexivity.
    + reflexivity.
    + apply duration_labels_space_free. exact (quantize_duration_in_grammar ql d Hd).
  - rewrite Hel in H. injection H as <-.
    apply Forall_app; split; [exact Ht |].
    apply Forall_cons; split; [apply Hpre; reflexivity | constructor].
Qed.

Lemma Forall_flat_map_concat {A B : Type} (P : B -> Prop) (f : A -> list B)
    (ls : list (list A)) :
  Forall P (flat_map f (concat ls)) ->
  Forall (fun l => Forall (fun x => Forall P (f x)) l) ls.
Proof.
  induction ls as [| l ls IH]; cbn [concat]; [constructor |].
  rewrite flat_map_app. intros H. apply Forall_app in H as [Hl Hls].
  constructor; [| exact (IH Hls)].
  clear -Hl. induction l as [| x l IH]; [constructor |].
  cbn [flat_map] in Hl. apply Forall_app in Hl as [Hx Hl].
  constructor; [exact Hx | exact (IH Hl)].
Qed.

Lemma encode_score_space_free (steps_per_quarter : Z) (s : score) (tokens : list string) :
  Forall space_free (score_articulations s) ->
  encode_score steps_per_quarter s = inr tokens ->
  Forall space_free tokens.
Proof.
  unfold score_articulations, events_of. intros Harts H.
  apply Forall_flat_map_concat in Harts.
  rewrite encode_score_by_measures in H.
  assert (Hmeasure : forall t (m : measure) t',
             Forall (fun x => Forall space_free (event_articulations x)) m ->
             Forall space_free t ->
             encode_measure steps_per_quarter t m = inr t' -> Forall space_free t').
  { intros t m t' Hm Ht Henc. unfold encode_measure in Henc.
    apply (for_each_invariant_on (Forall space_free)
             (fun x => Forall space_free (event_articulations x))
             (encode_element steps_per_quarter)
             (fun a x b Hx Ha Hb => encode_element_space_free steps_per_quarter a b x Hx Ha Hb)
             m (t ++ ["Bar"]) t' Hm); [| exact Henc].
    apply Forall_app; split; [exact Ht | repeat constructor]. }
  apply (for_each_invariant_on (Forall space_free) _ _ Hmeasure
           (measures_of s) [] tokens Harts); [constructor | exact H].
Qed.

Lemma encode_score_nonempty (steps_per_quarter : Z) (s : score) (tokens : list string) :
  measures_of s <> [] -> encode_score steps_per_quarter s = inr tokens -> tokens <> [].
Proof.
  intros Hm H E. subst tokens. apply encode_score_bars in H.
  destruct (measures_of s); [contradiction | discriminate H].
Qed.

(** X11.  The token file can be read back: for a score with at least one
    measure whose articulation class names hold no space, no token the
    encoder emits holds a space, and splitting the text [save_tokens]
    writes on single spaces gives back exactly the tokens. *)
Theorem token_file_round_trip (steps_per_quarter : Z) (s : score) (tokens : list string) :
  measures_of s <> [] ->
  Forall space_free (score_articulations s) ->
  encode_score steps_per_quarter s = inr tokens ->
  Forall space_free tokens
  /\ split_on " " (String.concat " " tokens) = tokens.
Proof.
  intros Hm Harts H.
  pose proof (encode_score_space_free steps_per_quarter s tokens Harts H) as Hfree.
  split; [exact Hfree |].
  apply split_on_concat; [| exact Hfree].
  exact (encode_score_nonempty steps_per_quarter s tokens Hm H).
Qed.

Lemma token_file_round_trip_witness :
  measures_of mixed_score <> []
  /\ Forall space_free (score_articulations mixed_score)
  /\ encode_score 4 mixed_score = inr mixed_tokens
  /\ Forall space_free mixed_tokens
  /\ split_on " " (String.concat " " mixed_tokens) = mixed_tokens.
Proof.
  assert (Ha : Forall space_free (score_articulations mixed_score))
    by (repeat constructor).
  split; [discriminate |]. split; [exact Ha |]. split; [reflexivity |].
  apply (token_file_round_trip 4 mixed_score mixed_tokens);
    [discriminate | exact Ha | reflexivity].
Defined.

Lemma split_on_join (sep : ascii) (a b : string) :
  split_on sep (a +:+ String sep b) = split_on sep a ++ split_on sep b.
Proof.
  induction a as [| c a IH].
  - rewrite append_nil. cbn [split_on]. rewrite Ascii.eqb_refl. reflexivity.
  - rewrite append_cons. cbn [split_on]. rewrite IH.
    destruct (Ascii.eqb c sep); [reflexivity |].
    destruct (split_on_cons sep a) as (w & ws & ->). reflexivity.
Qed.

Lemma strip_prefix_app (pre l : list string) : strip_prefix pre (pre ++ l) = Some l.
Proof.
  induction pre as [| a pre IH]; [destruct l; reflexivity |].
  cbn. rewrite String.eqb_refl. exact IH.
Qed.

Lemma joinpath_relative (p : Path) (s : string) :
  starts_with_slash s = false ->
  p // s = mkPath (anchored p) (parts p ++ parts (path_of_string s)).
Proof. intros H. unfold joinpath, path_of_string. cbn. rewrite H. reflexivity. Qed.

(** X12.  [relative_to] undoes joining: a file reached from a directory
    [root / dir] by a relative path is under [root], and its path
    relative to [root] is [dir] joined with that relative path.  So for
    every file found below the score directory the batch driver gets its
    relative path without raising. *)
Theorem relative_to_joined (root : Path) (dir s : string) :
  starts_with_slash dir = false -> starts_with_slash s = false ->
  relative_to (root // dir // s) root = inr (path_of_string dir // s)
  /\ under_project_root (PROJECT_ROOT // dir // s)
  /\ rel_path_of (PROJECT_ROOT // dir // s)
     = "./" +:+ path_str (path_of_string dir // s).
Proof.
  intros Hd Hs.
  assert (H : forall r, relative_to (r // dir // s) r = inr (path_of_string dir // s)).
  { intros r. rewrite (joinpath_relative r dir Hd), !(joinpath_relative _ s Hs).
    unfold relative_to. cbn [anchored parts].
    rewrite Bool.eqb_reflx, <- app_assoc, strip_prefix_app.
    unfold path_of_string at 3. cbn [anchored]. rewrite Hd. reflexivity. }
  split; [apply H |]. split; [eexists; apply H |].
  unfold rel_path_of. rewrite H. reflexivity.
Qed.

Lemma relative_to_joined_witness :
  starts_with_slash "mxl" = false /\ starts_with_slash "bach/./air.mxl" = false
  /\ relative_to (PROJECT_ROOT // "mxl" // "bach/./air.mxl") PROJECT_ROOT
     = inr (path_of_string "mxl" // "bach/./air.mxl")
  /\ under_project_root (PROJECT_ROOT // "mxl" // "bach/./air.mxl")
  /\ rel_path_of (PROJECT_ROOT // "mxl" // "bach/./air.mxl")
     = "./" +:+ path_str (path_of_string "mxl" // "bach/./air.mxl").
Proof.
  split; [reflexivity |]. split; [reflexivity |].
  exact (relative_to_joined PROJECT_ROOT "mxl" "bach/./air.mxl" eq_refl eq_refl).
Defined.

Lemma lstrip_first (v chars : string) :
  match lstrip v chars with
  | String c _ => mem_char c chars = false
  | "" => True
  end.
Proof.
  induction v as [| c v IH]; [exact I |]. cbn [lstrip].
  destruct (mem_char c chars) eqn:E; [exact IH | exact E].
Qed.

(** X13.  An index value never replaces the project root: the path
    [load_external_metadata] opens is absolute and starts with the
    components of the project root, even when the index value is itself
    an absolute path such as [/etc/passwd]. *)
Theorem metadata_path_below_root (index_value : string) :
  anchored (metadata_json_path index_value) = true
  /\ parts (metadata_json_path index_value)
     = parts PROJECT_ROOT ++ parts (path_of_string (lstrip index_value "./"))
  /\ metadata_json_path "/etc/passwd" = PROJECT_ROOT // "etc/passwd".
Proof.
  assert (H : starts_with_slash (lstrip index_value "./") = false).
  { pose proof (lstrip_first index_value "./") as Hf.
    destruct (lstrip index_value "./") as [| c r]; [reflexivity |].
    cbn [mem_char] in Hf. apply orb_false_elim in Hf as [_ Hf].
    apply orb_false_elim in Hf as [Hf _]. exact Hf. }
  unfold metadata_json_path. cbn zeta. rewrite (joinpath_relative _ _ H).
  repeat split; reflexivity.
Qed.

Lemma last_snoc (l : list string) (x : string) : List.last (l ++ [x]) "" = x.
Proof. apply List.last_last. Qed.

Lemma no_slash_not_anchored (name : string) :
  mem_char "/" name = false -> starts_with_slash name = false.
Proof.
  destruct name as [| c r]; [reflexivity |]. cbn [mem_char starts_with_slash].
  intros H. apply orb_false_elim in H as [H _]. rewrite Ascii.eqb_sym. exact H.
Qed.

(** Joining a directory with a plain file name adds one component. *)
Lemma joinpath_name (dir : Path) (name : string) :
  mem_char "/" name = false -> proper_component name = true ->
  dir // name = mkPath (anchored dir) (parts dir ++ [name]).
Proof.
  intros Hs Hp. rewrite joinpath_relative by (apply no_slash_not_anchored; exact Hs).
  unfold path_of_string. cbn [parts]. rewrite (split_on_plain "/" name Hs).
  cbn [List.filter]. rewrite Hp. reflexivity.
Qed.

Lemma mxl_name_plain (base : string) :
  base <> "" -> mem_char "/" base = false ->
  mem_char "/" (base +:+ ".mxl") = false /\ proper_component (base +:+ ".mxl") = true.
Proof.
  intros Hb Hs. split; [rewrite mem_char_append, Hs; reflexivity |].
  destruct base as [| c [| c' b]]; [contradiction | |].
  - unfold proper_component. rewrite append_cons. cbn [String.eqb].
    destruct (Ascii.eqb c "."); reflexivity.
  - unfold proper_component. rewrite !append_cons. cbn [String.eqb].
    destruct (Ascii.eqb c "."); reflexivity.
Qed.

Lemma stem_mxl (dir : Path) (base : string) :
  base <> "" -> mem_char "/" base = false -> stem (dir // (base +:+ ".mxl")) = base.
Proof.
  intros Hb Hs. destruct (mxl_name_plain base Hb Hs) as [Hn Hp].
  rewrite (joinpath_name dir _ Hn Hp). unfold stem, path_name. cbn [parts].
  rewrite last_snoc.
  change (base +:+ ".mxl") with (base +:+ String "." "mxl").
  rewrite split_on_join. change (split_on "." "mxl") with ["mxl"].
  rewrite removelast_last, last_snoc, concat_split_on, length_app.
  destruct (split_on_cons "." base) as (w & ws & ->).
  destruct base as [| c b]; [contradiction |].
  cbn [length]. rewrite Nat.add_1_r. reflexivity.
Qed.

(** X14.  Output files are named after the file name alone.  For a score
    file [<base>.mxl] ([base] not empty, without a slash; dots allowed) in
    any directory, the stem is [base], the token file is
    [<base>.remi.txt] and the metadata file [<base>.metadata.json] in the
    output directory; so two score files of the same name found in
    different directories are written to the same two output paths. *)
Theorem outputs_named_by_stem (output_dir dir1 dir2 : Path) (base : string) :
  base <> "" -> mem_char "/" base = false ->
  stem (dir1 // (base +:+ ".mxl")) = base
  /\ tokens_path output_dir (dir1 // (base +:+ ".mxl"))
     = output_dir // (base +:+ ".remi.txt")
  /\ metadata_path output_dir (dir1 // (base +:+ ".mxl"))
     = output_dir // (base +:+ ".metadata.json")
  /\ tokens_path output_dir (dir1 // (base +:+ ".mxl"))
     = tokens_path output_dir (dir2 // (base +:+ ".mxl"))
  /\ metadata_path output_dir (dir1 // (base +:+ ".mxl"))
     = metadata_path output_dir (dir2 // (base +:+ ".mxl")).
Proof.
  intros Hb Hs. unfold tokens_path, metadata_path.
  rewrite !(stem_mxl _ base Hb Hs). repeat split; reflexivity.
Qed.

Lemma outputs_named_by_stem_witness :
  "air.v2" <> "" /\ mem_char "/" "air.v2" = false
  /\ stem (MXL_DIR // "bach" // ("air.v2" +:+ ".mxl")) = "air.v2"
  /\ tokens_path RESULTS_DIR (MXL_DIR // "bach" // ("air.v2" +:+ ".mxl"))
     = RESULTS_DIR // ("air.v2" +:+ ".remi.txt")
  /\ metadata_path RESULTS_DIR (MXL_DIR // "bach" // ("air.v2" +:+ ".mxl"))
     = RESULTS_DIR // ("air.v2" +:+ ".metadata.json")
  /\ tokens_path RESULTS_DIR (MXL_DIR // "bach" // ("air.v2" +:+ ".mxl"))
     = tokens_path RESULTS_DIR (MXL_DIR // "handel" // ("air.v2" +:+ ".mxl"))
  /\ metadata_path RESULTS_DIR (MXL_DIR // "bach" // ("air.v2" +:+ ".mxl"))
     = metadata_path RESULTS_DIR (MXL_DIR // "handel" // ("air.v2" +:+ ".mxl")).
Proof.
  split; [discriminate |]. split; [reflexivity |].
  apply (outputs_named_by_stem RESULTS_DIR (MXL_DIR // "bach") (MXL_DIR // "handel")
           "air.v2"); [discriminate | reflexivity].
Defined.

(** X15.  The [filename] written into the metadata is the last component
    of the file's path: for an absolute path whose components hold no
    slash, [os.path.basename] of the path's string is the name of the
    file. *)
Theorem basename_is_file_name (dir : Path) (name : string) :
  anchored dir = true -> Forall (fun c => mem_char "/" c = false) (parts dir) ->
  mem_char "/" name = false -> proper_component name = true ->
  basename (path_str (dir // name)) = name
  /\ path_name (dir // name) = name.
Proof.
  intros Ha Hd Hs Hp. rewrite (joinpath_name dir name Hs Hp).
  unfold basename, path_str, path_name. cbn [anchored parts]. rewrite Ha.
  rewrite last_snoc. split; [| reflexivity].
  change ("/" +:+ String.concat "/" (parts dir ++ [name]))
    with ("" +:+ String "/" (String.concat "/" (parts dir ++ [name]))).
  rewrite split_on_join.
  rewrite split_on_concat.
  - change (split_on "/" "") with [""]. rewrite app_assoc. apply last_snoc.
  - destruct (parts dir); discriminate.
  - apply Forall_app; split; [exact Hd | repeat constructor; exact Hs].
Qed.

Lemma basename_is_file_name_witness :
  anchored MXL_DIR = true
  /\ Forall (fun c => mem_char "/" c = false) (parts MXL_DIR)
  /\ mem_char "/" "air.v2.mxl" = false /\ proper_component "air.v2.mxl" = true
  /\ basename (path_str (MXL_DIR // "air.v2.mxl")) = "air.v2.mxl"
  /\ path_name (MXL_DIR // "air.v2.mxl") = "air.v2.mxl".
Proof.
  assert (Hd : Forall (fun c => mem_char "/" c = false) (parts MXL_DIR))
    by (vm_compute; repeat constructor).
  split; [reflexivity |]. split; [exact Hd |]. split; [reflexivity |].
  split; [reflexivity |].
  apply (basename_is_file_name MXL_DIR "air.v2.mxl"); (reflexivity || exact Hd).
Defined.

(** ** Metadata merger and batch driver *)

Section PipelineMore.

Variable parse : Path -> result score.
Variable PDMX_DICT : gmap string string.
Variable read_json : Path -> result py_object.
Variable os_ok : list event -> event -> bool.
Variable rglob_mxl : Path -> list Path.

Abbreviation load' := (load_external_metadata PDMX_DICT read_json).
Abbreviation convert' := (convert_xml_to_remi_musicbert parse PDMX_DICT read_json).
Abbreviation try_block' := (process_try parse PDMX_DICT read_json os_ok).
Abbreviation loop_body' := (process_file parse PDMX_DICT read_json os_ok).

(** What loading does in each of its three cases. *)
Lemma load_cases (mxl_path_relative : string) (h : list event) :
  match PDMX_DICT !! mxl_path_relative with
  | None =>
      load' mxl_path_relative h
      = (h ++ [Print (MsgNoMetadataEntry mxl_path_relative)], inr (PyDict ∅))
  | Some v =>
      match read_json (metadata_json_path v) with
      | inl e =>
          load' mxl_path_relative h
          = (h ++ [Print (MsgFailedToLoad (metadata_json_path v) e)], inr (PyDict ∅))
      | inr obj => load' mxl_path_relative h = (h, inr obj)
      end
  end.
Proof.
  unfold load_external_metadata.
  destruct (PDMX_DICT !! mxl_path_relative) as [v |]; [| reflexivity].
  unfold try_except, lift. destruct (read_json (metadata_json_path v)); reflexivity.
Qed.

Lemma load_quiet (mxl_path_relative : string) (h : list event) :
  exists log obj,
    load' mxl_path_relative h = (h ++ log, inr obj)
    /\ csv_headers log = [] /\ processing_lines log = [].
Proof.
  pose proof (load_cases mxl_path_relative h) as H.
  destruct (PDMX_DICT !! mxl_path_relative) as [v |].
  - destruct (read_json (metadata_json_path v)) as [e | obj].
    + eexists _, _. split; [exact H |]. split; reflexivity.
    + exists [], obj. rewrite app_nil_r. split; [exact H |]. split; reflexivity.
  - eexists _, _. split; [exact H |]. split; reflexivity.
Qed.

Lemma convert_quiet (file_path : Path) (rel_mxl_path : string)
    (steps_per_quarter : Z) (h : list event) :
  exists log r,
    convert' file_path rel_mxl_path steps_per_quarter h = (h ++ log, r)
    /\ csv_headers log = [] /\ processing_lines log = [].
Proof.
  unfold convert_xml_to_remi_musicbert. rewrite M_bind_unfold. unfold lift at 1.
  destruct (parse file_path) as [e | sc].
  { exists [], (inl e). rewrite app_nil_r. repeat split. }
  destruct (load_quiet rel_mxl_path h) as (log & obj & Hl & Hc & Hp).
  rewrite M_bind_unfold, Hl, M_bind_unfold. unfold lift at 1.
  destruct (setitem obj _ _) as [e | d].
  { exists log, (inl e). repeat split; assumption. }
  rewrite M_bind_unfold. unfold lift.
  destruct (encode_score steps_per_quarter sc) as [e | tokens];
    eexists log, _; repeat split; assumption.
Qed.

Lemma csv_headers_app (a b : list event) :
  csv_headers (a ++ b) = csv_headers a ++ csv_headers b.
Proof. apply flat_map_app. Qed.

Lemma processing_lines_app (a b : list event) :
  processing_lines (a ++ b) = processing_lines a ++ processing_lines b.
Proof. apply flat_map_app. Qed.

(** The [try] block announces no file, and appends a row exactly when it
    returns; the row carries the current header flag. *)
Lemma process_try_rows (output_dir metadata_csv_path : Path) (first_row : bool)
    (file : Path) (rel_path : string) (h : list event) :
  exists evs r,
    try_block' output_dir metadata_csv_path first_row file rel_path h = (h ++ evs, r)
    /\ processing_lines evs = []
    /\ ((r = inr false /\ csv_headers evs = [first_row])
        \/ ((exists e, r = inl e) /\ csv_headers evs = [])).
Proof.
  destruct (convert_quiet file rel_path default_steps_per_quarter h)
    as (log & rc & Hc & Hcsv & Hproc).
  unfold process_try. rewrite M_bind_unfold, Hc.
  destruct rc as [e | [tokens metadata]].
  { exists log, (inl e). split; [reflexivity |]. split; [exact Hproc |].
    right. split; [eauto | exact Hcsv]. }
  unfold save_tokens, save_metadata_json.
  do 5 (rewrite ?M_bind_unfold; unfold perform at 1;
        match goal with
        | |- context [if os_ok ?hh ?ev then _ else _] =>
            destruct (os_ok hh ev);
            [ cbn iota beta
            | cbn iota beta; rewrite <- ?app_assoc;
              eexists _, (inl OSError);
              split; [reflexivity |];
              rewrite ?processing_lines_app, ?csv_headers_app, ?Hproc, ?Hcsv;
              split; [reflexivity |];
              right; split; [eauto | reflexivity] ]
        end).
  rewrite <- ?app_assoc. eexists _, (inr false). split; [reflexivity |].
  rewrite processing_lines_app, csv_headers_app, Hproc, Hcsv.
  split; [reflexivity |]. left. split; reflexivity.
Qed.

(** One turn of the loop: it raises only when the file is not under the
    project root, before doing anything; otherwise it announces the file
    once and appends at most one row. *)
Lemma process_file_rows (output_dir metadata_csv_path : Path) (first_row : bool)
    (file : Path) (h : list event) :
  match relative_to file PROJECT_ROOT with
  | inl e => loop_body' output_dir metadata_csv_path first_row file h = (h, inl e)
  | inr _ =>
      exists evs fr',
        loop_body' output_dir metadata_csv_path first_row file h = (h ++ evs, inr fr')
        /\ processing_lines evs = [rel_path_of file]
        /\ ((fr' = false /\ csv_headers evs = [first_row])
            \/ (fr' = first_row /\ csv_headers evs = []))
  end.
Proof.
  unfold process_file, rel_path_of. rewrite M_bind_unfold. unfold lift.
  destruct (relative_to file PROJECT_ROOT) as [e | rel]; [reflexivity |].
  rewrite M_bind_unfold. unfold print at 1. unfold try_except.
  destruct (process_try_rows output_dir metadata_csv_path first_row file
              ("./" +:+ path_str rel)
              (h ++ [Print (MsgProcessing ("./" +:+ path_str rel))]))
    as (evs & r & Ht & Hproc & Hrows).
  rewrite Ht. destruct Hrows as [[-> Hcsv] | [[e ->] Hcsv]].
  - eexists _, false. rewrite <- app_assoc. split; [reflexivity |].
    rewrite processing_lines_app, csv_headers_app, Hproc, Hcsv.
    split; [reflexivity |]. left. split; reflexivity.
  - rewrite M_bind_unfold. unfold print.
    eexists _, first_row. rewrite <- !app_assoc. split; [reflexivity |].
    rewrite !processing_lines_app, !csv_headers_app, Hproc, Hcsv.
    split; [reflexivity |]. right. split; reflexivity.
Qed.

Lemma relative_to_raises (p root : Path) (e : exn) :
  relative_to p root = inl e -> e = ValueError.
Proof.
  unfold relative_to. destruct (Bool.eqb _ _); [| intros [= <-]; reflexivity].
  destruct (strip_prefix _ _); [discriminate | intros [= <-]; reflexivity].
Qed.

Lemma loop_rows (output_dir metadata_csv_path : Path) (files : list Path)
    (first_row : bool) (h : list event) :
  exists evs r,
    for_each_M files (loop_body' output_dir metadata_csv_path) first_row h = (h ++ evs, r)
    /\ ((csv_headers evs = [] /\ forall fr', r = inr fr' -> fr' = first_row)
        \/ (exists k, csv_headers evs = first_row :: replicate k false
                      /\ forall fr', r = inr fr' -> fr' = false)).
Proof.
  revert first_row h; induction files as [| file files IH]; intros first_row h.
  - exists [], (inr first_row). rewrite app_nil_r. split; [reflexivity |].
    left. split; [reflexivity | intros fr' [= <-]; reflexivity].
  - cbn [for_each_M]. rewrite M_bind_unfold.
    pose proof (process_file_rows output_dir metadata_csv_path first_row file h) as Hf.
    destruct (relative_to file PROJECT_ROOT) as [e | rel].
    + rewrite Hf. exists [], (inl e). rewrite app_nil_r. split; [reflexivity |].
      left. split; [reflexivity | discriminate].
    + destruct Hf as (evs1 & fr1 & -> & _ & Hrows).
      destruct (IH fr1 (h ++ evs1)) as (evs2 & r & -> & Hrest).
      exists (evs1 ++ evs2), r. rewrite <- app_assoc. split; [reflexivity |].
      rewrite csv_headers_app.
      destruct Hrows as [[-> ->] | [-> ->]].
      * right. destruct Hrest as [[-> Hr] | (k & -> & Hr)].
        -- exists 0%nat. split; [reflexivity | exact Hr].
        -- exists (S k). split; [reflexivity | exact Hr].
      * exact Hrest.
Qed.

(** X16.  In every run of [batch_process], whatever fails on the way,
    the first row appended to the aggregate table carries the header and
    no later row does. *)
Theorem batch_header_once (input_dir output_dir : Path) (h : list event) :
  exists evs r,
    batch_process parse PDMX_DICT read_json os_ok rglob_mxl input_dir output_dir h
    = (h ++ evs, r)
    /\ (csv_headers evs = [] \/ exists k, csv_headers evs = true :: replicate k false).
Proof.
  unfold batch_process. rewrite M_bind_unfold. unfold perform.
  destruct (os_ok h (MakeDirs output_dir)).
  2:{ exists [], (inl OSError). rewrite app_nil_r. split; [reflexivity | left; reflexivity]. }
  rewrite M_bind_unfold.
  destruct (loop_rows output_dir (output_dir // "all_metadata.csv")
              (rglob_mxl input_dir) true (h ++ [MakeDirs output_dir]))
    as (evs & r & -> & Hrows).
  assert (Hflags : csv_headers evs = [] \/ exists k, csv_headers evs = true :: replicate k false).
  { destruct Hrows as [[H _] | (k & H & _)]; [left; exact H | right; eauto]. }
  destruct r as [e | fr].
  - exists ([MakeDirs output_dir] ++ evs), (inl e). rewrite <- app_assoc.
    split; [reflexivity | exact Hflags].
  - unfold print. eexists _, (inr tt). rewrite <- !app_assoc. split; [reflexivity |].
    rewrite !csv_headers_app. cbn. rewrite app_nil_r. exact Hflags.
Qed.

Lemma loop_lines (output_dir metadata_csv_path : Path) (files : list Path)
    (first_row : bool) (h : list event) :
  Forall under_project_root files ->
  exists evs fr',
    for_each_M files (loop_body' output_dir metadata_csv_path) first_row h
    = (h ++ evs, inr fr')
    /\ processing_lines evs = map rel_path_of files.
Proof.
  intros Hall; revert first_row h.
  induction Hall as [| file files [rel Hrel] _ IH]; intros first_row h.
  - exists [], first_row. rewrite app_nil_r. split; reflexivity.
  - cbn [for_each_M]. rewrite M_bind_unfold.
    pose proof (process_file_rows output_dir metadata_csv_path first_row file h) as Hf.
    rewrite Hrel in Hf. destruct Hf as (evs1 & fr1 & -> & Hp & _).
    destruct (IH fr1 (h ++ evs1)) as (evs2 & fr2 & -> & Hp2).
    exists (evs1 ++ evs2), fr2. rewrite <- app_assoc. split; [reflexivity |].
    rewrite processing_lines_app, Hp, Hp2. reflexivity.
Qed.

(** X17.  When every file found is under the project root and the
    output directory can be created, [batch_process] returns, and it
    announces each file exactly once, in the order of the directory walk,
    by the relative path it uses for the metadata lookup. *)
Theorem batch_announces_every_file (input_dir output_dir : Path) (h : list event) :
  Forall under_project_root (rglob_mxl input_dir) ->
  os_ok h (MakeDirs output_dir) = true ->
  exists evs,
    batch_process parse PDMX_DICT read_json os_ok rglob_mxl input_dir output_dir h
    = (h ++ evs, inr tt)
    /\ processing_lines evs = map rel_path_of (rglob_mxl input_dir).
Proof.
  intros Hall Hmk. unfold batch_process.
  rewrite M_bind_unfold, (perform_accepted _ _ _ Hmk), M_bind_unfold.
  destruct (loop_lines output_dir (output_dir // "all_metadata.csv")
              (rglob_mxl input_dir) true (h ++ [MakeDirs output_dir]) Hall)
    as (evs & fr & -> & Hp).
  unfold print. eexists. rewrite <- !app_assoc. split; [reflexivity |].
  rewrite !processing_lines_app, Hp. cbn. rewrite app_nil_r. reflexivity.
Qed.

(** X18.  The relative path is computed outside the [try] block: the
    first file found that is not under the project root makes
    [batch_process] itself raise [ValueError]; the files before it have
    been processed, that file and the files after it are not, and the run
    does not reach its end. *)
Theorem batch_aborts_outside_root (input_dir output_dir : Path)
    (files1 : list Path) (file : Path) (files2 : list Path) (e : exn)
    (h : list event) :
  rglob_mxl input_dir = files1 ++ file :: files2 ->
  Forall under_project_root files1 ->
  relative_to file PROJECT_ROOT = inl e ->
  os_ok h (MakeDirs output_dir) = true ->
  exists evs,
    batch_process parse PDMX_DICT read_json os_ok rglob_mxl input_dir output_dir h
    = (h ++ evs, inl ValueError)
    /\ processing_lines evs = map rel_path_of files1.
Proof.
  intros Hfiles Hall Hrel Hmk.
  pose proof (relative_to_raises _ _ _ Hrel) as ->.
  unfold batch_process.
  rewrite M_bind_unfold, (perform_accepted _ _ _ Hmk), M_bind_unfold.
  rewrite Hfiles, for_each_M_app.
  destruct (loop_lines output_dir (output_dir // "all_metadata.csv")
              files1 true (h ++ [MakeDirs output_dir]) Hall)
    as (evs & fr & -> & Hp).
  cbn [for_each_M]. rewrite M_bind_unfold.
  pose proof (process_file_rows output_dir (output_dir // "all_metadata.csv")
                fr file ((h ++ [MakeDirs output_dir]) ++ evs)) as Hf.
  rewrite Hrel in Hf. rewrite Hf.
  eexists. rewrite <- !app_assoc. split; [reflexivity |].
  rewrite processing_lines_app, Hp. reflexivity.
Qed.

(** X19.  A metadata document that is not a JSON object fails the file:
    the conversion raises [TypeError] when it sets [filename], the batch
    driver reports the file and writes nothing for it. *)
Theorem non_object_metadata_fails_file (output_dir metadata_csv_path file : Path)
    (first_row : bool) (sc : score) (index_value : string) (doc : jvalue)
    (h : list event) :
  under_project_root file ->
  parse file = inr sc ->
  PDMX_DICT !! rel_path_of file = Some index_value ->
  read_json (metadata_json_path index_value) = inr (PyNotDict doc) ->
  convert' file (rel_path_of file) default_steps_per_quarter h = (h, inl TypeError)
  /\ loop_body' output_dir metadata_csv_path first_row file h
     = (h ++ [Print (MsgProcessing (rel_path_of file));
              Print (MsgErrorProcessing file TypeError)], inr first_row).
Proof.
  intros [rel Hrel] Hparse Hidx Hread.
  assert (Hconv : forall h0, convert' file (rel_path_of file) default_steps_per_quarter h0
                             = (h0, inl TypeError)).
  { intros h0. unfold convert_xml_to_remi_musicbert.
    rewrite M_bind_unfold. unfold lift at 1. rewrite Hparse, M_bind_unfold.
    pose proof (load_cases (rel_path_of file) h0) as Hl.
    rewrite Hidx, Hread in Hl. rewrite Hl. reflexivity. }
  split; [apply Hconv |].
  unfold process_file. rewrite M_bind_unfold. unfold lift. rewrite Hrel.
  rewrite M_bind_unfold. unfold print at 1. unfold try_except, process_try.
  rewrite M_bind_unfold.
  replace ("./" +:+ path_str rel) with (rel_path_of file)
    by (unfold rel_path_of; rewrite Hrel; reflexivity).
  rewrite Hconv, M_bind_unfold. unfold print. rewrite <- app_assoc. reflexivity.
Qed.

(** X20.  A metadata file that cannot be read or parsed does not fail
    the file: the failure is reported, and the conversion returns the
    tokens of the score with the record holding [filename] alone. *)
Theorem unreadable_metadata_not_fatal (file : Path) (rel_mxl_path : string)
    (steps_per_quarter : Z) (sc : score) (index_value : string) (e : exn)
    (h : list event) :
  steps_per_quarter <> 0 ->
  parse file = inr sc ->
  PDMX_DICT !! rel_mxl_path = Some index_value ->
  read_json (metadata_json_path index_value) = inl e ->
  exists tokens,
    encode_score steps_per_quarter sc = inr tokens
    /\ convert' file rel_mxl_path steps_per_quarter h
       = (h ++ [Print (MsgFailedToLoad (metadata_json_path index_value) e)],
          inr (tokens, {[ "filename" := JStr (basename (path_str file)) ]})).
Proof.
  intros Hs Hparse Hidx Hread.
  destruct (encode_score_length steps_per_quarter sc Hs) as (tokens & Henc & _).
  exists tokens. split; [exact Henc |].
  unfold convert_xml_to_remi_musicbert.
  rewrite M_bind_unfold. unfold lift at 1. rewrite Hparse, M_bind_unfold.
  pose proof (load_cases rel_mxl_path h) as Hl. rewrite Hidx, Hread in Hl.
  rewrite Hl, M_bind_unfold. unfold lift at 1. cbn [setitem mret result_ret].
  rewrite M_bind_unfold. unfold lift. rewrite Henc, insert_empty. reflexivity.
Qed.

(** X21.  With a non-zero [steps_per_quarter], the conversion returns
    exactly when the parser returns a score and the loaded metadata is a
    JSON object; when the parser raises, the conversion raises the same
    exception before any metadata lookup. *)
Theorem convert_returns_iff (file : Path) (rel_mxl_path : string)
    (steps_per_quarter : Z) (h : list event) :
  steps_per_quarter <> 0 ->
  ((exists h' out, convert' file rel_mxl_path steps_per_quarter h = (h', inr out))
   <-> (exists sc loaded,
          parse file = inr sc
          /\ snd (load' rel_mxl_path h) = inr (PyDict loaded)))
  /\ (forall e, parse file = inl e ->
        convert' file rel_mxl_path steps_per_quarter h = (h, inl e)).
Proof.
  intros Hs. split; [split |].
  - intros (h' & [tokens md] & H).
    destruct (convert_spec parse PDMX_DICT read_json file rel_mxl_path
                steps_per_quarter h) as (log & r & Hc & _ & Hr).
    rewrite Hc in H. injection H as _ ->.
    destruct (Hr tokens md eq_refl) as (sc & loaded & Hp & Hl & _).
    exists sc, loaded. rewrite Hl. split; [exact Hp | reflexivity].
  - intros (sc & loaded & Hp & Hl).
    destruct (encode_score_length steps_per_quarter sc Hs) as (tokens & Henc & _).
    unfold convert_xml_to_remi_musicbert.
    rewrite M_bind_unfold. unfold lift at 1. rewrite Hp, M_bind_unfold.
    destruct (load' rel_mxl_path h) as [h1 r1]. cbn [snd] in Hl. subst r1.
    rewrite M_bind_unfold. unfold lift at 1. cbn [setitem mret result_ret].
    rewrite M_bind_unfold. unfold lift. rewrite Henc. eauto.
  - intros e Hp. unfold convert_xml_to_remi_musicbert.
    rewrite M_bind_unfold. unfold lift at 1. rewrite Hp. reflexivity.
Qed.

End PipelineMore.

Lemma sample_files_under_root : Forall under_project_root (sample_rglob MXL_DIR).
Proof.
  unfold sample_rglob.
  repeat (apply Forall_cons; split; [eexists; vm_compute; reflexivity |]).
  constructor.
Qed.

Lemma batch_announces_every_file_witness :
  Forall under_project_root (sample_rglob MXL_DIR)
  /\ os_accepts_all [] (MakeDirs RESULTS_DIR) = true
  /\ exists evs,
       batch_process sample_parse sample_index sample_read_json os_accepts_all
         sample_rglob MXL_DIR RESULTS_DIR [] = ([] ++ evs, inr tt)
       /\ processing_lines evs = map rel_path_of (sample_rglob MXL_DIR).
Proof.
  split; [exact sample_files_under_root |]. split; [reflexivity |].
  exact (batch_announces_every_file sample_parse sample_index sample_read_json
           os_accepts_all sample_rglob MXL_DIR RESULTS_DIR []
           sample_files_under_root eq_refl).
Defined.

Lemma batch_aborts_outside_root_witness :
  stray_rglob MXL_DIR = [sample_file "a.mxl"] ++ path_of_string "/tmp/x.mxl" :: [sample_file "c.mxl"]
  /\ Forall under_project_root [sample_file "a.mxl"]
  /\ relative_to (path_of_string "/tmp/x.mxl") PROJECT_ROOT = inl ValueError
  /\ os_accepts_all [] (MakeDirs RESULTS_DIR) = true
  /\ exists evs,
       batch_process sample_parse sample_index sample_read_json os_accepts_all
         stray_rglob MXL_DIR RESULTS_DIR [] = ([] ++ evs, inl ValueError)
       /\ processing_lines evs = map rel_path_of [sample_file "a.mxl"].
Proof.
  assert (Hall : Forall under_project_root [sample_file "a.mxl"]).
  { apply Forall_cons; split; [eexists; vm_compute; reflexivity | constructor]. }
  split; [reflexivity |]. split; [exact Hall |]. split; [reflexivity |].
  split; [reflexivity |].
  exact (batch_aborts_outside_root sample_parse sample_index sample_read_json
           os_accepts_all stray_rglob MXL_DIR RESULTS_DIR
           [sample_file "a.mxl"] (path_of_string "/tmp/x.mxl") [sample_file "c.mxl"]
           ValueError [] eq_refl Hall eq_refl eq_refl).
Defined.

Lemma non_object_metadata_fails_file_witness :
  under_project_root (sample_file "a.mxl")
  /\ sample_parse (sample_file "a.mxl") = inr rest_score
  /\ sample_index !! rel_path_of (sample_file "a.mxl") = Some "./metadata/a.json"
  /\ array_read_json (metadata_json_path "./metadata/a.json")
     = inr (PyNotDict (JArray [JStr "Air"]))
  /\ convert_xml_to_remi_musicbert sample_parse sample_index array_read_json
       (sample_file "a.mxl") (rel_path_of (sample_file "a.mxl"))
       default_steps_per_quarter [] = ([], inl TypeError)
  /\ process_file sample_parse sample_index array_read_json os_accepts_all
       RESULTS_DIR (RESULTS_DIR // "all_metadata.csv") true (sample_file "a.mxl") []
     = ([] ++ [Print (MsgProcessing (rel_path_of (sample_file "a.mxl")));
               Print (MsgErrorProcessing (sample_file "a.mxl") TypeError)], inr true).
Proof.
  assert (Hu : under_project_root (sample_file "a.mxl"))
    by (eexists; vm_compute; reflexivity).
  assert (Hi : sample_index !! rel_path_of (sample_file "a.mxl") = Some "./metadata/a.json")
    by (vm_compute; reflexivity).
  split; [exact Hu |]. split; [reflexivity |]. split; [exact Hi |].
  split; [reflexivity |].
  exact (non_object_metadata_fails_file sample_parse sample_index array_read_json
           os_accepts_all RESULTS_DIR (RESULTS_DIR // "all_metadata.csv")
           (sample_file "a.mxl") true rest_score "./metadata/a.json"
           (JArray [JStr "Air"]) [] Hu eq_refl Hi eq_refl).
Defined.

Lemma unreadable_metadata_not_fatal_witness :
  4 <> 0
  /\ sample_parse (sample_file "a.mxl") = inr rest_score
  /\ sample_index !! "./mxl/a.mxl" = Some "./metadata/a.json"
  /\ failing_read_json (metadata_json_path "./metadata/a.json") = inl OSError
  /\ exists tokens,
       encode_score 4 rest_score = inr tokens
       /\ convert_xml_to_remi_musicbert sample_parse sample_index failing_read_json
            (sample_file "a.mxl") "./mxl/a.mxl" 4 []
          = ([] ++ [Print (MsgFailedToLoad (metadata_json_path "./metadata/a.json") OSError)],
             inr (tokens, {[ "filename" := JStr (basename (path_str (sample_file "a.mxl"))) ]})).
Proof.
  assert (Hi : sample_index !! "./mxl/a.mxl" = Some "./metadata/a.json")
    by (vm_compute; reflexivity).
  split; [discriminate |]. split; [reflexivity |]. split; [exact Hi |].
  split; [reflexivity |].
  exact (unreadable_metadata_not_fatal sample_parse sample_index failing_read_json
           (sample_file "a.mxl") "./mxl/a.mxl" 4 rest_score "./metadata/a.json"
           OSError [] ltac:(discriminate) eq_refl Hi eq_refl).
Defined.

Lemma convert_returns_iff_witness :
  4 <> 0
  /\ ((exists h' out,
         convert_xml_to_remi_musicbert sample_parse sample_index sample_read_json
           (sample_file "broken.mxl") "./mxl/broken.mxl" 4 [] = (h', inr out))
      <-> (exists sc loaded,
             sample_parse (sample_file "broken.mxl") = inr sc
             /\ snd (load_external_metadata sample_index sample_read_json
                       "./mxl/broken.mxl" []) = inr (PyDict loaded)))
  /\ (forall e, sample_parse (sample_file "broken.mxl") = inl e ->
        convert_xml_to_remi_musicbert sample_parse sample_index sample_read_json
          (sample_file "broken.mxl") "./mxl/broken.mxl" 4 [] = ([], inl e)).
Proof.
  split; [discriminate |].
  exact (convert_returns_iff sample_parse sample_index sample_read_json
           (sample_file "broken.mxl") "./mxl/broken.mxl" 4 [] ltac:(discriminate)).
Defined.
